(** * ProjectFilesStore: the project file synchronisation engine

    A shallow embedding of [app/lib/stores/project-files.ts]
    (class [ProjectFilesStore extends FilesStore]) and proofs about its
    write-behind queue, its scheduler and its error handling.

    Conventions of the embedding.
    - A JavaScript string is a [string] holding its UTF-8 encoding, so
      an ASCII character is one byte and U+0130 is the two bytes 196 176.
      Positions count bytes.  [toLowerCase] maps the ASCII letters and
      U+0130, whose lower case U+0069 U+0307 is longer than the letter.
    - The private [Map] [#syncQueue] is an association list in insertion
      order, as [Map.prototype.entries] enumerates it.
    - An [async] method is cut at its [await]s.  What runs between two
      [await]s is one atomic transition of the event loop; a suspended
      method is a [Task] (waiting for the parent store or for a promise
      of the class itself) or a [Fetch] (waiting for [fetch]).
    - The parent class [FilesStore] is not part of the embedding: its
      [writeFile] and [removeFile] are parameters of the development. *)

From Stdlib Require Import List String Ascii Bool Arith ZArith Lia.
Import ListNotations.

Local Open Scope string_scope.
Local Open Scope list_scope.

Set Implicit Arguments.

(** ** JavaScript strings *)

Module JsString.

(** The lower case of one byte: 'A'..'Z' go to 'a'..'z', everything
    else is kept. *)
Definition lower_ascii (a : ascii) : ascii :=
  let n := nat_of_ascii a in
  if (65 <=? n)%nat && (n <=? 90)%nat then ascii_of_nat (n + 32) else a.

(** The two bytes of U+0130, LATIN CAPITAL LETTER I WITH DOT ABOVE. *)
Definition is_dotted_I (a b : ascii) : bool :=
  Ascii.eqb a "196"%char && Ascii.eqb b "176"%char.

(** [String.prototype.toLowerCase].  U+0130 is the one code point whose
    lower case has another length than the letter: it becomes U+0069
    U+0307 (bytes 105 204 135), one UTF-16 unit more in JavaScript and
    one byte more here.  Every other letter outside ASCII is kept as it
    is: in JavaScript its lower case has the length of the letter, so
    that no position moves there either, and it is no ASCII character
    but for U+212A, whose lower case is 'k'; the lists of extensions the
    lower case is compared with below hold ASCII letters only, and no
    'k'. *)
Fixpoint toLowerCase (s : string) : string :=
  match s with
  | EmptyString => EmptyString
  | String a r =>
      match r with
      | String b r' =>
          if is_dotted_I a b
          then String "i" (String "204" (String "135" (toLowerCase r')))
          else String (lower_ascii a) (toLowerCase r)
      | EmptyString => String (lower_ascii a) EmptyString
      end
  end.

(** Whether U+0130 occurs in [s]. *)
Fixpoint has_dotted_I (s : string) : bool :=
  match s with
  | EmptyString => false
  | String a r =>
      match r with
      | String b _ => is_dotted_I a b || has_dotted_I r
      | EmptyString => false
      end
  end.

(** [s.lastIndexOf(c)] for a one-character needle: the position of the
    last occurrence, or -1. *)
Fixpoint lastIndexOf (c : ascii) (s : string) : Z :=
  match s with
  | EmptyString => (-1)%Z
  | String a r =>
      let i := lastIndexOf c r in
      if (0 <=? i)%Z then (1 + i)%Z
      else if Ascii.eqb a c then 0%Z else (-1)%Z
  end.

Fixpoint drop (n : nat) (s : string) : string :=
  match n, s with
  | O, _ => s
  | S _, EmptyString => EmptyString
  | S m, String _ r => drop m r
  end.

Fixpoint take (n : nat) (s : string) : string :=
  match n, s with
  | O, _ => EmptyString
  | S _, EmptyString => EmptyString
  | S m, String a r => String a (take m r)
  end.

(** [s.substring(start)]: a negative [start] counts as 0, one past the
    end as the length. *)
Definition substring (start : Z) (s : string) : string :=
  drop (Z.to_nat start) s.

(** [s.includes(c)] for a one-character needle. *)
Fixpoint includes (c : ascii) (s : string) : bool :=
  match s with
  | EmptyString => false
  | String a r => Ascii.eqb a c || includes c r
  end.

(** JavaScript truthiness of a [string | null]. *)
Definition truthy (s : option string) : bool :=
  match s with
  | Some EmptyString => false
  | Some _ => true
  | None => false
  end.

(** [a || b] on [string | null | undefined] operands. *)
Definition or_else (a : option string) (b : option string) : option string :=
  if truthy a then a else b.

End JsString.

(** ** JavaScript [Map] with string keys *)

Module JsMap.

Section Ops.
Variable V : Type.

Definition t := list (string * V).

Definition empty : t := [].

(** [m.set(k, v)]: an existing key keeps its place in the iteration
    order and gets the new value; a new key goes to the end. *)
Fixpoint set (k : string) (v : V) (m : t) : t :=
  match m with
  | [] => [(k, v)]
  | (k', v') :: r =>
      if String.eqb k' k then (k, v) :: r else (k', v') :: set k v r
  end.

Fixpoint get (k : string) (m : t) : option V :=
  match m with
  | [] => None
  | (k', v') :: r => if String.eqb k' k then Some v' else get k r
  end.

Definition size (m : t) : nat := List.length m.

Definition entries (m : t) : list (string * V) := m.

Definition keys (m : t) : list string := map fst m.

(** The entries stored under [k]; a well-formed map has at most one. *)
Definition bindings (k : string) (m : t) : list (string * V) :=
  filter (fun e => String.eqb (fst e) k) m.
End Ops.

Arguments empty {V}.

End JsMap.

(** ** Binary classification ([isFileBinary]) *)

Definition binaryExtensions : list string :=
  [".jpg"; ".jpeg"; ".png"; ".gif"; ".pdf"; ".zip"; ".exe"; ".dll"].

(** [Array.prototype.includes] on an array of strings. *)
Definition array_includes (l : list string) (x : string) : bool :=
  existsb (String.eqb x) l.

(** [filePath.toLowerCase().substring(filePath.lastIndexOf('.'))]: the
    position is taken in the path and used in its lower case.  The two
    have the same length unless U+0130 occurs in the path; every U+0130
    before the last dot moves the dot one position to the right in the
    lower case, in bytes here as in UTF-16 units in JavaScript, and the
    cut then falls before the dot. *)
Definition extension_of (filePath : string) : string :=
  JsString.substring (JsString.lastIndexOf "."%char filePath)
                     (JsString.toLowerCase filePath).

Definition isFileBinary (filePath content : string) : bool :=
  let ext := extension_of filePath in
  if array_includes binaryExtensions ext then true
  else JsString.includes zero content.

(** The classification in the words of the specification: the path,
    compared without regard to case, ends in one of the known binary
    extensions, or the content holds a null byte somewhere. *)
Definition spec_extension_matches (filePath : string) : Prop :=
  exists stem e,
    In e binaryExtensions /\ JsString.toLowerCase filePath = (stem ++ e)%string.

Definition spec_has_null_byte (content : string) : Prop :=
  exists before after, content = (before ++ String zero after)%string.

Definition spec_binary (filePath content : string) : Prop :=
  spec_extension_matches filePath \/ spec_has_null_byte content.

(** ** Data model *)

(** [ProjectMetadata] of [lib/.server/projects/storage]. *)
Record ProjectMetadata := {
  id : string;
  name : string;
  description : option string;
  createdAt : string;
  updatedAt : string;
  lastOpenedAt : option string;
  gitUrl : option string;
  gitBranch : option string;
  tags : option (list string);
  chatIds : option (list string)
}.

(** The observable status, [projectState]. *)
Record ProjectState := {
  project : option ProjectMetadata;
  syncing : bool;
  lastSyncedAt : option string
}.

(** A value of [#syncQueue]: [{ content, isBinary }]. *)
Record PendingWrite := {
  pw_content : string;
  pw_isBinary : bool
}.

(** An element of the [files] array of a batch: [{ path, content, isBinary }]. *)
Record BatchFile := {
  path : string;
  content : string;
  isBinary : bool
}.

(** What the class reads of the parent's [FileMap]: a [Dirent] is a file
    with its content and flag, or a folder; a key may hold [undefined]. *)
Inductive Dirent :=
| File (file_content : string) (file_isBinary : bool)
| Folder.

Definition FileMap := list (string * option Dirent).

(** The instance: its private fields, [projectState], and the parent's
    [files] store. *)
Record Store := {
  projectId : option string;
  syncInterval : option nat;
  syncQueue : JsMap.t PendingWrite;
  isSyncing : bool;
  projectState : ProjectState;
  files : FileMap
}.

(** *** The environment of the instance *)

(** The body of a response: its text, and the object [response.json()]
    yields when the text parses ([files] and [error] are the two fields
    the class reads). *)
Record JsonData := {
  data_files : option (list string);
  data_error : option string
}.

Record Body := {
  body_text : string;
  body_json : option JsonData
}.

(** The settlement of a [fetch] promise. *)
Inductive Response :=
| Resolved (ok : bool) (body : Body)
| Rejected (reason : string).

(** The request a [fetch] call carries. *)
Inductive Request :=
| BatchWrite (pid : string) (batch : list BatchFile)
| Delete (pid : string) (filePath : string)
| ListFiles (pid : string)
| GetFile (pid : string) (filePath : string).

(** The state of the [for] loop of [loadProjectFiles] between two files. *)
Record LoadLoop := {
  load_pid : string;
  load_rest : list string;
  load_total : nat
}.

(** A method suspended at [await fetch(...)]. *)
Inductive FetchCont :=
| ProcessK (batch : list BatchFile)
| SyncK (count : nat)
| RemoveK (filePath : string)
| LoadListK (pid : string)
| LoadFileK (filePath : string) (k : LoadLoop).

Record Fetch := {
  request : Request;
  cont : FetchCont
}.

(** A method suspended at another [await]: [writeFile] waiting for
    [super.writeFile] or for [isFileBinary], [removeFile] waiting for
    [super.removeFile].  A [writeFile] called from [loadProjectFiles]
    carries the loop to return to. *)
Inductive Task :=
| WriteSuper (filePath content : string) (ret : option LoadLoop)
| WriteBinary (filePath content : string) (binary : bool) (ret : option LoadLoop)
| RemoveSuper (filePath : string).

Inductive LogEntry :=
| ErrLoadFile (filePath : string)
| InfoLoaded (count : nat) (pid : string)
| ErrLoad
| ErrSyncDeletion (filePath : string)
| InfoSynced (count : nat) (pid : option string)
| ErrSync
| ErrProcessQueue.

(** The promises handed to callers. *)
Inductive Call :=
| CSetProject
| CLoadProjectFiles (pid : string)
| CWriteFile (filePath : string)
| CRemoveFile (filePath : string)
| CSyncToProject.

Inductive Outcome :=
| Fulfilled
| Thrown (reason : string).

Record World := {
  store : Store;
  inflight : list Fetch;
  tasks : list Task;
  intervals : list nat;
  next_handle : nat;
  timeouts : nat;
  now : string;
  log : list LogEntry;
  settled : list (Call * Outcome)
}.

(** *** Field updates *)

Definition set_projectId (v : option string) (s : Store) : Store :=
  {| projectId := v; syncInterval := syncInterval s; syncQueue := syncQueue s;
     isSyncing := isSyncing s; projectState := projectState s; files := files s |}.

Definition set_syncInterval (v : option nat) (s : Store) : Store :=
  {| projectId := projectId s; syncInterval := v; syncQueue := syncQueue s;
     isSyncing := isSyncing s; projectState := projectState s; files := files s |}.

Definition set_syncQueue (v : JsMap.t PendingWrite) (s : Store) : Store :=
  {| projectId := projectId s; syncInterval := syncInterval s; syncQueue := v;
     isSyncing := isSyncing s; projectState := projectState s; files := files s |}.

Definition set_isSyncing (v : bool) (s : Store) : Store :=
  {| projectId := projectId s; syncInterval := syncInterval s; syncQueue := syncQueue s;
     isSyncing := v; projectState := projectState s; files := files s |}.

Definition set_projectState (v : ProjectState) (s : Store) : Store :=
  {| projectId := projectId s; syncInterval := syncInterval s; syncQueue := syncQueue s;
     isSyncing := isSyncing s; projectState := v; files := files s |}.

Definition set_files (v : FileMap) (s : Store) : Store :=
  {| projectId := projectId s; syncInterval := syncInterval s; syncQueue := syncQueue s;
     isSyncing := isSyncing s; projectState := projectState s; files := v |}.

Definition on_store (f : Store -> Store) (w : World) : World :=
  {| store := f (store w); inflight := inflight w; tasks := tasks w;
     intervals := intervals w; next_handle := next_handle w;
     timeouts := timeouts w; now := now w; log := log w; settled := settled w |}.

Definition set_inflight (v : list Fetch) (w : World) : World :=
  {| store := store w; inflight := v; tasks := tasks w;
     intervals := intervals w; next_handle := next_handle w;
     timeouts := timeouts w; now := now w; log := log w; settled := settled w |}.

Definition set_tasks (v : list Task) (w : World) : World :=
  {| store := store w; inflight := inflight w; tasks := v;
     intervals := intervals w; next_handle := next_handle w;
     timeouts := timeouts w; now := now w; log := log w; settled := settled w |}.

Definition set_intervals (v : list nat) (w : World) : World :=
  {| store := store w; inflight := inflight w; tasks := tasks w;
     intervals := v; next_handle := next_handle w;
     timeouts := timeouts w; now := now w; log := log w; settled := settled w |}.

Definition set_next_handle (v : nat) (w : World) : World :=
  {| store := store w; inflight := inflight w; tasks := tasks w;
     intervals := intervals w; next_handle := v;
     timeouts := timeouts w; now := now w; log := log w; settled := settled w |}.

Definition set_timeouts (v : nat) (w : World) : World :=
  {| store := store w; inflight := inflight w; tasks := tasks w;
     intervals := intervals w; next_handle := next_handle w;
     timeouts := v; now := now w; log := log w; settled := settled w |}.

Definition set_now (v : string) (w : World) : World :=
  {| store := store w; inflight := inflight w; tasks := tasks w;
     intervals := intervals w; next_handle := next_handle w;
     timeouts := timeouts w; now := v; log := log w; settled := settled w |}.

Definition set_log (v : list LogEntry) (w : World) : World :=
  {| store := store w; inflight := inflight w; tasks := tasks w;
     intervals := intervals w; next_handle := next_handle w;
     timeouts := timeouts w; now := now w; log := v; settled := settled w |}.

Definition set_settled (v : list (Call * Outcome)) (w : World) : World :=
  {| store := store w; inflight := inflight w; tasks := tasks w;
     intervals := intervals w; next_handle := next_handle w;
     timeouts := timeouts w; now := now w; log := log w; settled := v |}.

(** *** Environment primitives *)

(** [fetch(...)]: the newest outstanding call is the head of [inflight]. *)
Definition fetch (r : Request) (k : FetchCont) (w : World) : World :=
  set_inflight ({| request := r; cont := k |} :: inflight w) w.

(** An [await] on something other than [fetch]. *)
Definition suspend (t : Task) (w : World) : World :=
  set_tasks (t :: tasks w) w.

(** [logger.error] and [logger.info]: the newest entry is the head. *)
Definition logger (e : LogEntry) (w : World) : World :=
  set_log (e :: log w) w.

(** The promise of a public method settles. *)
Definition settle (c : Call) (o : Outcome) (w : World) : World :=
  set_settled ((c, o) :: settled w) w.

(** [setInterval(callback, 5000)]: a fresh handle. *)
Definition setInterval (w : World) : nat * World :=
  let h := next_handle w in
  (h, set_next_handle (S h) (set_intervals (h :: intervals w) w)).

Definition clearInterval (h : nat) (w : World) : World :=
  set_intervals (filter (fun h' => negb (Nat.eqb h' h)) (intervals w)) w.

(** [setTimeout(() => this.#processSyncQueue(), 100)]. *)
Definition setTimeout (w : World) : World :=
  set_timeouts (S (timeouts w)) w.

(** ** The methods of [ProjectFilesStore] *)

(** What [FormData.append] stores for a [string | null] value. *)
Definition form_value (v : option string) : string :=
  match v with
  | Some s => s
  | None => "null"
  end.

(** [{ ...state, syncing: b }]. *)
Definition with_syncing (b : bool) (st : ProjectState) : ProjectState :=
  {| project := project st; syncing := b; lastSyncedAt := lastSyncedAt st |}.

(** [{ ...state, syncing: false, lastSyncedAt: t }]. *)
Definition synced_at (t : string) (st : ProjectState) : ProjectState :=
  {| project := project st; syncing := false; lastSyncedAt := Some t |}.

(** [Array.from(this.#syncQueue.entries()).map(...)]. *)
Definition snapshot (q : JsMap.t PendingWrite) : list BatchFile :=
  map (fun e => {| path := fst e;
                   content := pw_content (snd e);
                   isBinary := pw_isBinary (snd e) |})
      (JsMap.entries q).

(** [files.forEach(file => this.#syncQueue.set(file.path, {...}))]. *)
Definition requeue (batch : list BatchFile) (q : JsMap.t PendingWrite)
  : JsMap.t PendingWrite :=
  fold_left (fun q' f =>
               JsMap.set (path f)
                         {| pw_content := content f; pw_isBinary := isBinary f |}
                         q')
            batch q.

(** The loop of [syncToProject] over [Object.entries(files)]. *)
Definition filesToSync (fm : FileMap) : list BatchFile :=
  flat_map (fun e =>
              match snd e with
              | Some (File c b) => [{| path := fst e; content := c; isBinary := b |}]
              | _ => []
              end)
           fm.

Section Engine.

(** The parent class: what [super.writeFile(filePath, content)] and
    [super.removeFile(filePath)] leave in the [files] store once their
    promise settles, and the reason when it is rejected. *)
Variable super_writeFile : string -> string -> FileMap -> FileMap * option string.
Variable super_removeFile : string -> FileMap -> FileMap * option string.

Definition bound (w : World) : bool :=
  JsString.truthy (projectId (store w)).

(** [#startAutoSync] *)
Definition startAutoSync (w : World) : World :=
  let (h, w1) := setInterval w in
  on_store (set_syncInterval (Some h)) w1.

(** [setProject]: it has no [await], so it runs in one piece. *)
Definition setProject (p : option ProjectMetadata) (w : World) : World :=
  let w1 := on_store (set_projectId
                        (JsString.or_else (option_map id p) None)) w in
  let w2 := on_store (set_projectState
                        {| project := p; syncing := false;
                           lastSyncedAt := None |}) w1 in
  let w3 := match syncInterval (store w2) with
            | Some h => on_store (set_syncInterval None) (clearInterval h w2)
            | None => w2
            end in
  let w4 := match p with
            | Some _ => startAutoSync w3
            | None => w3
            end in
  settle CSetProject Fulfilled w4.

(** [dispose] *)
Definition dispose (w : World) : World :=
  match syncInterval (store w) with
  | Some h => on_store (set_syncInterval None) (clearInterval h w)
  | None => w
  end.

(** [#processSyncQueue], up to [await fetch(...)]. *)
Definition processSyncQueue (w : World) : World :=
  if isSyncing (store w)
     || (JsMap.size (syncQueue (store w)) =? 0)%nat
     || negb (bound w)
  then w
  else
    let w1 := on_store (set_isSyncing true) w in
    let currentState := projectState (store w1) in
    let w2 := on_store (set_projectState (with_syncing true currentState)) w1 in
    let batch := snapshot (syncQueue (store w2)) in
    let w3 := on_store (set_syncQueue JsMap.empty) w2 in
    fetch (BatchWrite (form_value (projectId (store w3))) batch)
          (ProcessK batch) w3.

(** The [catch] block of [#processSyncQueue]. *)
Definition processSyncQueue_catch (w : World) : World :=
  let w1 := logger ErrProcessQueue w in
  on_store (fun s => set_projectState (with_syncing false (projectState s)) s) w1.

(** The [finally] block of [#processSyncQueue]. *)
Definition processSyncQueue_finally (w : World) : World :=
  let w1 := on_store (set_isSyncing false) w in
  if (0 <? JsMap.size (syncQueue (store w1)))%nat then setTimeout w1 else w1.

(** [#processSyncQueue], from the settlement of its [fetch]. *)
Definition processSyncQueue_resume
           (batch : list BatchFile) (r : Response) (w : World) : World :=
  let w1 :=
    match r with
    | Resolved true _ =>
        on_store (fun s => set_projectState
                             (synced_at (now w) (projectState s)) s) w
    | Resolved false _ =>
        (* Re-queue files on failure, then throw *)
        let w' := on_store (fun s => set_syncQueue
                                       (requeue batch (syncQueue s)) s) w in
        processSyncQueue_catch w'
    | Rejected _ => processSyncQueue_catch w
    end in
  processSyncQueue_finally w1.

(** The periodic callback installed by [#startAutoSync]. *)
Definition tick (w : World) : World :=
  if (0 <? JsMap.size (syncQueue (store w)))%nat
  then processSyncQueue w
  else w.

(** [syncToProject], up to [await fetch(...)]. *)
Definition syncToProject (w : World) : World :=
  if negb (bound w)
  then settle CSyncToProject (Thrown "No project set for syncing") w
  else
    let currentState := projectState (store w) in
    let w1 := on_store (set_projectState (with_syncing true currentState)) w in
    let batch := filesToSync (files (store w1)) in
    if (0 <? List.length batch)%nat
    then fetch (BatchWrite (form_value (projectId (store w1))) batch)
               (SyncK (List.length batch)) w1
    else
      let w2 := on_store (fun s => set_projectState
                                     (synced_at (now w1) (projectState s)) s)
                         w1 in
      settle CSyncToProject Fulfilled w2.

(** The [catch] block of [syncToProject]: log, clear the flag, rethrow. *)
Definition syncToProject_catch (reason : string) (w : World) : World :=
  let w1 := logger ErrSync w in
  let w2 := on_store (fun s => set_projectState
                                 (with_syncing false (projectState s)) s) w1 in
  settle CSyncToProject (Thrown reason) w2.

(** [syncToProject], from the settlement of its [fetch]. *)
Definition syncToProject_resume (count : nat) (r : Response) (w : World) : World :=
  match r with
  | Resolved true _ =>
      let w1 := logger (InfoSynced count (projectId (store w))) w in
      let w2 := on_store (fun s => set_projectState
                                     (synced_at (now w1) (projectState s)) s)
                         w1 in
      settle CSyncToProject Fulfilled w2
  | Resolved false _ => syncToProject_catch "Failed to sync files" w
  | Rejected reason => syncToProject_catch reason w
  end.

(** [removeFile], from the settlement of [super.removeFile]. *)
Definition removeFile_resume (filePath : string) (w : World) : World :=
  let (fm, err) := super_removeFile filePath (files (store w)) in
  let w1 := on_store (set_files fm) w in
  match err with
  | Some reason => settle (CRemoveFile filePath) (Thrown reason) w1
  | None =>
      if bound w1
      then fetch (Delete (form_value (projectId (store w1))) filePath)
                 (RemoveK filePath) w1
      else settle (CRemoveFile filePath) Fulfilled w1
  end.

(** [removeFile], from the settlement of its [fetch]: the response is
    not inspected, a rejection is logged. *)
Definition removeFile_settled (filePath : string) (r : Response) (w : World)
  : World :=
  let w1 := match r with
            | Resolved _ _ => w
            | Rejected _ => logger (ErrSyncDeletion filePath) w
            end in
  settle (CRemoveFile filePath) Fulfilled w1.

(** The [for] loop of [loadProjectFiles], at the top of an iteration. *)
Definition load_next (k : LoadLoop) (w : World) : World :=
  match load_rest k with
  | [] =>
      let w1 := logger (InfoLoaded (load_total k) (load_pid k)) w in
      settle (CLoadProjectFiles (load_pid k)) Fulfilled w1
  | filePath :: rest =>
      fetch (GetFile (load_pid k) filePath)
            (LoadFileK filePath
                       {| load_pid := load_pid k; load_rest := rest;
                          load_total := load_total k |})
            w
  end.

(** [writeFile] returns to its caller: a caller outside the class gets
    the promise; inside [loadProjectFiles] a rejection lands in the
    inner [catch], and the loop goes on. *)
Definition writeFile_return
           (filePath : string) (ret : option LoadLoop) (o : Outcome)
           (w : World) : World :=
  match ret with
  | None => settle (CWriteFile filePath) o w
  | Some k =>
      match o with
      | Fulfilled => load_next k w
      | Thrown _ => load_next k (logger (ErrLoadFile filePath) w)
      end
  end.

(** [writeFile], from the settlement of [super.writeFile] to
    [await this.isFileBinary(...)]. *)
Definition writeFile_resume
           (filePath content : string) (ret : option LoadLoop) (w : World)
  : World :=
  let (fm, err) := super_writeFile filePath content (files (store w)) in
  let w1 := on_store (set_files fm) w in
  match err with
  | Some reason => writeFile_return filePath ret (Thrown reason) w1
  | None =>
      if bound w1
      then suspend (WriteBinary filePath content
                                (isFileBinary filePath content) ret) w1
      else writeFile_return filePath ret Fulfilled w1
  end.

(** [writeFile], after [await this.isFileBinary(...)]: enqueue, kick the
    queue, return. *)
Definition writeFile_enqueue
           (filePath content : string) (binary : bool) (ret : option LoadLoop)
           (w : World) : World :=
  let w1 := on_store (fun s => set_syncQueue
                                 (JsMap.set filePath
                                            {| pw_content := content;
                                               pw_isBinary := binary |}
                                            (syncQueue s)) s) w in
  let w2 := processSyncQueue w1 in
  writeFile_return filePath ret Fulfilled w2.

(** The outer [catch] of [loadProjectFiles]: log and rethrow. *)
Definition loadProjectFiles_catch (pid reason : string) (w : World) : World :=
  settle (CLoadProjectFiles pid) (Thrown reason) (logger ErrLoad w).

(** [loadProjectFiles], from the settlement of the listing request
    through [await response.json()] to the first iteration. *)
Definition loadProjectFiles_listed (pid : string) (r : Response) (w : World)
  : World :=
  match r with
  | Rejected reason => loadProjectFiles_catch pid reason w
  | Resolved ok body =>
      match body_json body with
      | None => loadProjectFiles_catch pid "SyntaxError" w
      | Some data =>
          if negb ok
          then loadProjectFiles_catch
                 pid
                 (form_value (JsString.or_else
                                (data_error data)
                                (Some "Failed to load project files")))
                 w
          else
            match data_files data with
            | None => loadProjectFiles_catch pid "TypeError" w
            | Some fs =>
                load_next {| load_pid := pid; load_rest := fs;
                             load_total := List.length fs |} w
            end
      end
  end.

(** [loadProjectFiles], from the settlement of the request for one file. *)
Definition loadProjectFiles_fetched
           (filePath : string) (k : LoadLoop) (r : Response) (w : World)
  : World :=
  match r with
  | Rejected _ => load_next k (logger (ErrLoadFile filePath) w)
  | Resolved true body =>
      suspend (WriteSuper filePath (body_text body) (Some k)) w
  | Resolved false _ => load_next k w
  end.

(** *** The event loop *)

Inductive Event :=
| CallSetProject (p : option ProjectMetadata)
| CallLoadProjectFiles (pid : string)
| CallWriteFile (filePath content : string)
| CallRemoveFile (filePath : string)
| CallSyncToProject
| CallDispose
| Resume (i : nat)
| Respond (i : nat) (r : Response)
| Tick (h : nat)
| Timeout
| Tock (t : string).

Fixpoint remove_nth {A} (i : nat) (l : list A) : list A :=
  match i, l with
  | _, [] => []
  | O, _ :: r => r
  | S j, x :: r => x :: remove_nth j r
  end.

Definition resume_task (t : Task) (w : World) : World :=
  match t with
  | WriteSuper filePath content ret => writeFile_resume filePath content ret w
  | WriteBinary filePath content binary ret =>
      writeFile_enqueue filePath content binary ret w
  | RemoveSuper filePath => removeFile_resume filePath w
  end.

Definition resume_fetch (k : FetchCont) (r : Response) (w : World) : World :=
  match k with
  | ProcessK batch => processSyncQueue_resume batch r w
  | SyncK count => syncToProject_resume count r w
  | RemoveK filePath => removeFile_settled filePath r w
  | LoadListK pid => loadProjectFiles_listed pid r w
  | LoadFileK filePath k' => loadProjectFiles_fetched filePath k' r w
  end.

(** One turn of the event loop; [None] when the event cannot happen in
    this state. *)
Definition step (w : World) (e : Event) : option World :=
  match e with
  | CallSetProject p => Some (setProject p w)
  | CallLoadProjectFiles pid =>
      Some (fetch (ListFiles pid) (LoadListK pid) w)
  | CallWriteFile filePath content =>
      Some (suspend (WriteSuper filePath content None) w)
  | CallRemoveFile filePath => Some (suspend (RemoveSuper filePath) w)
  | CallSyncToProject => Some (syncToProject w)
  | CallDispose => Some (dispose w)
  | Resume i =>
      match nth_error (tasks w) i with
      | Some t => Some (resume_task t (set_tasks (remove_nth i (tasks w)) w))
      | None => None
      end
  | Respond i r =>
      match nth_error (inflight w) i with
      | Some f =>
          Some (resume_fetch (cont f) r
                             (set_inflight (remove_nth i (inflight w)) w))
      | None => None
      end
  | Tick h =>
      if existsb (Nat.eqb h) (intervals w) then Some (tick w) else None
  | Timeout =>
      match timeouts w with
      | O => None
      | S n => Some (processSyncQueue (set_timeouts n w))
      end
  | Tock t => Some (set_now t w)
  end.

Fixpoint run (es : list Event) (w : World) : option World :=
  match es with
  | [] => Some w
  | e :: es' =>
      match step w e with
      | Some w' => run es' w'
      | None => None
      end
  end.

(** The instance after [new ProjectFilesStore(...)], over the parent's
    initial [files]. *)
Definition init (fm : FileMap) : World :=
  {| store := {| projectId := None; syncInterval := None;
                 syncQueue := JsMap.empty; isSyncing := false;
                 projectState := {| project := None; syncing := false;
                                    lastSyncedAt := None |};
                 files := fm |};
     inflight := []; tasks := []; intervals := []; next_handle := 1;
     timeouts := 0; now := ""; log := []; settled := [] |}.

Inductive reachable : World -> Prop :=
| reachable_init fm : reachable (init fm)
| reachable_step w e w' :
    reachable w -> step w e = Some w' -> reachable w'.

End Engine.

(** ** Invariants, schedules and expected results *)

(** The queue never lists a path twice. *)
Definition queue_wf (w : World) : Prop :=
  NoDup (JsMap.keys (syncQueue (store w))).

(** The only live interval is the one [#syncInterval] holds, and handles
    are handed out in increasing order. *)
Definition timers_wf (w : World) : Prop :=
  intervals w = match syncInterval (store w) with
                | Some h => [h]
                | None => []
                end
  /\ forall h, In h (intervals w) -> h < next_handle w.

Definition is_process (f : Fetch) : bool :=
  match cont f with
  | ProcessK _ => true
  | _ => false
  end.

Definition is_batch_write (f : Fetch) : bool :=
  match request f with
  | BatchWrite _ _ => true
  | _ => false
  end.

(** Outstanding transmissions of [#processSyncQueue]. *)
Definition process_count (w : World) : nat :=
  List.length (filter is_process (inflight w)).

(** The guard [#isSyncing] is set exactly while one transmission of
    [#processSyncQueue] is outstanding. *)
Definition single_flight (w : World) : Prop :=
  process_count w = if isSyncing (store w) then 1 else 0.

(** Outstanding batch transmissions, whoever issued them. *)
Definition batch_write_count (w : World) : nat :=
  List.length (filter is_batch_write (inflight w)).

(** A response that lets the [fetch] promise resolve with [ok]. *)
Definition response_ok (r : Response) : bool :=
  match r with
  | Resolved true _ => true
  | _ => false
  end.

(** The entries of a batch for one path. *)
Definition batch_for (filePath : string) (batch : list BatchFile)
  : list BatchFile :=
  filter (fun f => String.eqb (path f) filePath) batch.

(** Response bodies: nothing, a file's text, the JSON listing of a
    project's paths. *)
Definition empty_body : Body := {| body_text := ""; body_json := None |}.



Section Schedules.

Variable super_writeFile : string -> string -> FileMap -> FileMap * option string.
Variable super_removeFile : string -> FileMap -> FileMap * option string.








End Schedules.

(** ** What is in flight, queued and suspended *)

(** A file of a batch carries the flag [isFileBinary] gives its path and
    content. *)
Definition file_classified (f : BatchFile) : Prop :=
  isBinary f = isFileBinary (path f) (content f).

Definition entry_classified (e : string * PendingWrite) : Prop :=
  pw_isBinary (snd e) = isFileBinary (fst e) (pw_content (snd e)).

Definition task_classified (t : Task) : Prop :=
  match t with
  | WriteBinary filePath content binary _ =>
      binary = isFileBinary filePath content
  | _ => True
  end.

(** An outstanding [fetch] carries the request its method built: a batch
    of [#processSyncQueue] is the snapshot the method keeps, is not empty
    and lists no path twice; a batch of [syncToProject] is not empty; and
    a batch or a deletion names a project. *)
Definition fetch_wf (f : Fetch) : Prop :=
  match request f, cont f with
  | BatchWrite pid batch, ProcessK batch' =>
      batch' = batch /\ pid <> "" /\ batch <> []
      /\ NoDup (map path batch) /\ Forall file_classified batch
  | BatchWrite pid batch, SyncK count =>
      count = List.length batch /\ pid <> "" /\ batch <> []
  | Delete pid filePath, RemoveK filePath' =>
      filePath' = filePath /\ pid <> ""
  | ListFiles pid, LoadListK pid' => pid' = pid
  | GetFile pid filePath, LoadFileK filePath' k =>
      filePath' = filePath /\ load_pid k = pid
  | _, _ => False
  end.

Definition wire_wf (w : World) : Prop :=
  Forall fetch_wf (inflight w)
  /\ Forall entry_classified (syncQueue (store w))
  /\ Forall task_classified (tasks w).

(** The observable flag is not set unless a batch is outstanding. *)
Definition status_wf (w : World) : Prop :=
  syncing (projectState (store w)) = true -> 1 <= batch_write_count w.

(** The paths a listing response gives [loadProjectFiles], if it gives
    any: the response is [ok], its body parses, and the object has
    [files]. *)
Definition usable_listing (r : Response) : option (list string) :=
  match r with
  | Resolved true body =>
      match body_json body with
      | Some data => data_files data
      | None => None
      end
  | _ => None
  end.

(** ** The route [api.projects.files] *)

Module FilesRoute.

(** The fields of the posted form the action reads; [None] is the [null]
    of [formData.get].  The [files] field is kept as [JSON.parse] reads
    it. *)
Record Entry := {
  entry_path : option string;
  entry_content : option string;
  entry_isBinary : bool
}.

(** What [JSON.parse] makes of the [files] field: it throws, or the value
    cannot be iterated, or it is an array.  An element is seen through
    the three properties the loop reads.  [entry_content] is [Some] for a
    string and [None] for a value [Buffer.from] throws on (a number, a
    boolean, [null], a missing property, an object without a length); a
    content that is an array of bytes, which [Buffer.from] accepts, is
    not an [Entry] of this model.  [entry_path] is [None] when the
    property is not a string, and [entry_isBinary] is the truthiness of
    the property. *)
Inductive ParsedFiles :=
| Unusable (message : string)
| Files (entries : list Entry).

Record Form := {
  form_action : option string;
  form_projectId : option string;
  form_path : option string;
  form_content : option string;
  form_isBinary : option string;
  form_files : option ParsedFiles
}.

(** The regular expression of the loader,
    [/\.(txt|md|...|svelte)$/i]: the path ends, whatever the case, in a
    dot and one of the alternatives.  The alternatives are ASCII, and an
    ASCII end of the lower-cased path is the lower case of the same end
    of the path. *)
Definition textExtensions : list string :=
  ["txt"; "md"; "js"; "jsx"; "ts"; "tsx"; "css"; "html"; "json"; "xml";
   "yaml"; "yml"; "env"; "gitignore"; "vue"; "svelte"].

Definition endsWith (s suffix : string) : bool :=
  (String.length suffix <=? String.length s)%nat
  && String.eqb (JsString.drop (String.length s - String.length suffix) s)
                suffix.

Definition isTextFile (filePath : string) : bool :=
  existsb (fun e => endsWith (JsString.toLowerCase filePath)
                             (String "."%char e))
          textExtensions.

Section Route.

(** The storage of [lib/.server/projects/storage] and [Buffer.from] are
    parameters: a storage operation leaves a disk and, when its promise
    is rejected, the message of the error. *)
Variable Buffer : Type.
Variable Disk : Type.
Variable utf8 : string -> Buffer.
Variable base64 : string -> Buffer.
Variable storage_writeFile :
  string -> string -> Buffer -> Disk -> Disk * option string.
Variable storage_deleteFile : string -> string -> Disk -> Disk * option string.
Variable storage_readFile : string -> string -> Disk -> Buffer + string.
Variable storage_listFiles : string -> Disk -> list string + string.

Inductive Payload :=
| ErrorJson (message : string)
| SuccessJson (count : option nat)
| FilesJson (files : list string)
| Content (content : Buffer) (contentType : string).

Record HttpResponse := {
  status : nat;
  payload : Payload
}.

(** [json(data)] and [json(data, { status })]. *)
Definition json (data : Payload) : HttpResponse :=
  {| status := 200; payload := data |}.

Definition json_status (data : Payload) (code : nat) : HttpResponse :=
  {| status := code; payload := data |}.

(** [isBinary ? Buffer.from(content, 'base64')
             : Buffer.from(content, 'utf-8')] *)
Definition to_buffer (isBinary : bool) (content : string) : Buffer :=
  if isBinary then base64 content else utf8 content.

(** One turn of the loop of ['batch-write'].  [Buffer.from] throws on a
    content it cannot read ([entry_content] is [None]), before the
    storage is called;
    [storage.writeFile] throws in [path.join] on a path that is not a
    string, before it touches the disk. *)
Definition write_entry (projectId : string) (file : Entry) (d : Disk)
  : Disk * option string :=
  match entry_content file with
  | None => (d, Some "TypeError")
  | Some content =>
      let buffer := to_buffer (entry_isBinary file) content in
      match entry_path file with
      | None => (d, Some "TypeError")
      | Some filePath => storage_writeFile projectId filePath buffer d
      end
  end.

(** [for (const file of files) { ... await storage.writeFile(...) }]: the
    first rejection ends the loop. *)
Fixpoint write_all (projectId : string) (files : list Entry) (d : Disk)
  : Disk * option string :=
  match files with
  | [] => (d, None)
  | file :: rest =>
      match write_entry projectId file d with
      | (d1, None) => write_all projectId rest d1
      | (d1, Some message) => (d1, Some message)
      end
  end.

(** The [catch] of [action]. *)
Definition action_failed (message : string) : HttpResponse :=
  json_status (ErrorJson message) 500.

(** [action({ request })], on the form of the request. *)
Definition action (isNodeEnvironment : bool) (formData : Form) (d : Disk)
  : HttpResponse * Disk :=
  if negb isNodeEnvironment
  then (json_status
          (ErrorJson "Project storage is only available in Node.js environment")
          503, d)
  else if negb (JsString.truthy (form_projectId formData))
  then (json_status (ErrorJson "Project ID is required") 400, d)
  else
    let projectId := form_value (form_projectId formData) in
    match form_action formData with
    | None => (json_status (ErrorJson "Invalid action") 400, d)
    | Some name =>
        if String.eqb name "write"
        then
          if negb (JsString.truthy (form_path formData))
          then (json_status (ErrorJson "File path is required") 400, d)
          else
            match form_content formData with
            | None => (action_failed "TypeError", d)
            | Some content =>
                let isBinary :=
                  match form_isBinary formData with
                  | Some flag => String.eqb flag "true"
                  | None => false
                  end in
                let buffer := to_buffer isBinary content in
                match storage_writeFile projectId
                                        (form_value (form_path formData))
                                        buffer d with
                | (d1, None) => (json (SuccessJson None), d1)
                | (d1, Some message) => (action_failed message, d1)
                end
            end
        else if String.eqb name "delete"
        then
          if negb (JsString.truthy (form_path formData))
          then (json_status (ErrorJson "File path is required") 400, d)
          else
            match storage_deleteFile projectId
                                     (form_value (form_path formData)) d with
            | (d1, None) => (json (SuccessJson None), d1)
            | (d1, Some message) => (action_failed message, d1)
            end
        else if String.eqb name "batch-write"
        then
          match form_files formData with
          | None => (action_failed "TypeError", d)
          | Some (Unusable message) => (action_failed message, d)
          | Some (Files files) =>
              match write_all projectId files d with
              | (d1, None) =>
                  (json (SuccessJson (Some (List.length files))), d1)
              | (d1, Some message) => (action_failed message, d1)
              end
          end
        else (json_status (ErrorJson "Invalid action") 400, d)
    end.

(** [loader({ request })], on the two search parameters it reads. *)
Definition loader (isNodeEnvironment : bool)
           (projectId filePath : option string) (d : Disk) : HttpResponse :=
  if negb isNodeEnvironment
  then json_status
         (ErrorJson "Project storage is only available in Node.js environment")
         503
  else if negb (JsString.truthy projectId)
  then json_status (ErrorJson "Project ID is required") 400
  else if JsString.truthy filePath
  then
    match storage_readFile (form_value projectId) (form_value filePath) d with
    | inl content =>
        if isTextFile (form_value filePath)
        then json (Content content "text/plain; charset=utf-8")
        else json (Content content "application/octet-stream")
    | inr message => json_status (ErrorJson message) 500
    end
  else
    match storage_listFiles (form_value projectId) d with
    | inl files => json (FilesJson files)
    | inr message => json_status (ErrorJson message) 500
    end.

(** The form [#processSyncQueue] and [syncToProject] post for a batch:
    [action], [projectId], and [files] as [JSON.stringify] writes the
    array and [JSON.parse] reads it back. *)
Definition entry_of (f : BatchFile) : Entry :=
  {| entry_path := Some (path f);
     entry_content := Some (content f);
     entry_isBinary := isBinary f |}.

(** Multipart encoding rewrites a line break in a field; the JSON text
    of [files] has none, a project id must not have one for the route to
    read what the engine appended. *)
Definition no_line_break (s : string) : bool :=
  negb (JsString.includes "010"%char s) && negb (JsString.includes "013"%char s).

Definition batch_form (pid : string) (batch : list BatchFile) : Form :=
  {| form_action := Some "batch-write";
     form_projectId := Some pid;
     form_path := None;
     form_content := None;
     form_isBinary := None;
     form_files := Some (Files (map entry_of batch)) |}.

(** The disk after the storage has taken every file of a batch, in the
    order of the batch. *)
Definition store_all (pid : string) (batch : list BatchFile) (d : Disk)
  : Disk :=
  fold_left (fun d' f =>
               fst (storage_writeFile pid (path f)
                                      (to_buffer (isBinary f) (content f)) d'))
            batch d.

(** [response.ok]: the status is in the range 200-299. *)
Definition response_is_ok (r : HttpResponse) : bool :=
  (200 <=? status r)%nat && (status r <=? 299)%nat.

End Route.

Arguments ErrorJson {Buffer} message.
Arguments SuccessJson {Buffer} count.
Arguments FilesJson {Buffer} files.

End FilesRoute.

(** ** A concrete parent store and sample data *)

(** Modelled from the spec: the parent class [FilesStore] of [./files] is
    not among the sources.  The specification describes it as the virtual
    filesystem adapter with [write(path, content)] and [remove(path)]:
    [write] stores the content under the path, [remove] drops the path,
    and neither is rejected. *)
Definition vfs_write (filePath content : string) (fm : FileMap)
  : FileMap * option string :=
  (JsMap.set filePath (Some (File content false)) fm, None).

Definition vfs_remove (filePath : string) (fm : FileMap)
  : FileMap * option string :=
  (filter (fun e => negb (String.eqb (fst e) filePath)) fm, None).

Definition sample_project (pid : string) : ProjectMetadata :=
  {| id := pid; name := "demo"; description := None;
     createdAt := "2024-01-01T00:00:00.000Z";
     updatedAt := "2024-01-01T00:00:00.000Z";
     lastOpenedAt := None; gitUrl := None; gitBranch := None;
     tags := None; chatIds := None |}.

Definition run_vfs (es : list Event) : option World :=
  run vfs_write vfs_remove es (init []).

(** A storage in memory for the route: the disk lists what was written,
    newest first; a write to [/locked.txt] is rejected. *)
Definition sample_disk : Type := list (string * string * string).

Definition sample_writeFile (pid filePath : string) (buffer : string)
           (d : sample_disk) : sample_disk * option string :=
  if String.eqb filePath "/locked.txt"
  then (d, Some "EACCES: permission denied")
  else ((pid, filePath, buffer) :: d, None).

Definition sample_deleteFile (pid filePath : string) (d : sample_disk)
  : sample_disk * option string :=
  (filter (fun e => negb (String.eqb (fst (fst e)) pid
                          && String.eqb (snd (fst e)) filePath)) d, None).

Definition sample_readFile (pid filePath : string) (d : sample_disk)
  : string + string :=
  match find (fun e => String.eqb (fst (fst e)) pid
                       && String.eqb (snd (fst e)) filePath) d with
  | Some e => inl (snd e)
  | None => inr "ENOENT: no such file or directory"
  end.

Definition sample_listFiles (pid : string) (d : sample_disk)
  : list string + string :=
  inl (map (fun e => snd (fst e))
           (filter (fun e => String.eqb (fst (fst e)) pid) d)).

Definition sample_utf8 (s : string) : string := s.

Definition sample_base64 (s : string) : string := ("base64:" ++ s)%string.

Definition sample_action :=
  FilesRoute.action sample_utf8 sample_base64 sample_writeFile
                    sample_deleteFile.

Definition sample_loader :=
  FilesRoute.loader sample_readFile sample_listFiles.

(** ** Scenarios *)

(** A [writeFile] call that runs to its end while a project is bound:
    the call, the settlement of [super.writeFile], the enqueue step. *)
Definition write (filePath content : string) : list Event :=
  [CallWriteFile filePath content; Resume 0; Resume 0].

Definition bind (pid : string) : Event :=
  CallSetProject (Some (sample_project pid)).

Definition answer_ok : Response := Resolved true empty_body.

Definition answer_not_ok : Response := Resolved false empty_body.

(** A batch for [/a.txt] and [/b.txt] is in flight, [/a.txt] is written
    again, and the batch is answered with a status that is not [ok]. *)
Definition stale_requeue_trace : list Event :=
  [bind "A"]
    ++ write "/x.txt" "0"
    ++ write "/a.txt" "1" ++ write "/b.txt" "2"
    ++ [Respond 0 answer_ok; Timeout]
    ++ write "/a.txt" "3"
    ++ [Respond 0 answer_not_ok].

(** The one pending write is in flight when the network fails. *)
Definition network_error_trace : list Event :=
  [bind "A"] ++ write "/a.txt" "1" ++ [Respond 0 (Rejected "NetworkError")].

(** Under project [A], [/a.txt] is in flight and [/b.txt] is pending when
    the instance is rebound to project [B]. *)
Definition rebind_trace : list Event :=
  [bind "A"] ++ write "/a.txt" "1" ++ write "/b.txt" "2" ++ [bind "B"].

(** The background transmission of [/a.txt] is in flight when the user
    saves explicitly. *)
Definition overlap_trace : list Event :=
  [bind "A"] ++ write "/a.txt" "1" ++ [CallSyncToProject].

(** [/a.txt] is in flight with [1] when it is written twice more. *)
Definition coalesce_trace : list Event :=
  [bind "A"] ++ write "/a.txt" "1" ++ write "/a.txt" "2"
    ++ write "/a.txt" "3".

(** The batch in flight is answered with a status that is not [ok], and
    the retry timer fires. *)
Definition failed_attempt : list Event :=
  [Respond 0 answer_not_ok; Timeout].

(** [writeFile] is called while no project is bound; project [A] is
    bound before [super.writeFile] has settled. *)
Definition late_bind_trace : list Event :=
  [CallWriteFile "/a.txt" "1"; bind "A"; Resume 0; Resume 0].

(** The path [/\u0130.png]: the name of the file is U+0130, the capital
    I with a dot above. *)
Definition dotted_I_png : string :=
  String "/"%char (String "196"%char (String "176"%char ".png")).

(** The world a trace leads to from a fresh instance over an empty
    virtual filesystem. *)
Definition world_after (es : list Event) : World :=
  match run_vfs es with
  | Some w => w
  | None => init []
  end.

(** Project [A] is bound and the transmission of [/a.txt] is in flight. *)
Definition busy_world : World :=
  world_after ([bind "A"] ++ write "/a.txt" "1").


(** As [busy_world], with [/b.txt] pending in the queue. *)
Definition pending_world : World :=
  world_after ([bind "A"] ++ write "/a.txt" "1" ++ write "/b.txt" "2").





(** [/a.txt] is in flight and [/b.txt] is pending when [removeFile] is
    called for [/b.txt]; then the parent has removed it and the deletion
    is posted. *)
Definition removing_world : World :=
  world_after ([bind "A"] ++ write "/a.txt" "1" ++ write "/b.txt" "2"
                 ++ [CallRemoveFile "/b.txt"]).

Definition deleting_world : World :=
  world_after ([bind "A"] ++ write "/a.txt" "1" ++ write "/b.txt" "2"
                 ++ [CallRemoveFile "/b.txt"; Resume 0]).

(** The answer of the route for a project it does not find. *)
Definition error_listing : Response :=
  Resolved false
           {| body_text := "";
              body_json := Some {| data_files := None;
                                   data_error := Some "Project not found" |} |}.

(** A posted batch of three files, the second of which the sample
    storage rejects. *)
Definition locked_entry : FilesRoute.Entry :=
  {| FilesRoute.entry_path := Some "/locked.txt";
     FilesRoute.entry_content := Some "2";
     FilesRoute.entry_isBinary := false |}.

Definition locked_form : FilesRoute.Form :=
  {| FilesRoute.form_action := Some "batch-write";
     FilesRoute.form_projectId := Some "A";
     FilesRoute.form_path := None;
     FilesRoute.form_content := None;
     FilesRoute.form_isBinary := None;
     FilesRoute.form_files :=
       Some (FilesRoute.Files
               ([FilesRoute.entry_of
                   {| path := "/a.txt"; content := "1"; isBinary := false |}]
                  ++ locked_entry
                  :: [FilesRoute.entry_of
                        {| path := "/c.png"; content := "3";
                           isBinary := true |}])) |}.

Definition readme_disk : sample_disk := [("A", "/readme.md", "hello")].

(** ** Statements the code does not satisfy *)

(** Every rebind to another project, or to none, leaves the queue empty. *)
Definition rebind_discards_queue : Prop :=
  forall w p w',
    reachable vfs_write vfs_remove w ->
    JsString.or_else (option_map id p) None <> projectId (store w) ->
    step vfs_write vfs_remove w (CallSetProject p) = Some w' ->
    syncQueue (store w') = [].

(** With a project bound, at most one batch transmission is outstanding. *)
Definition batch_single_flight : Prop :=
  forall w,
    reachable vfs_write vfs_remove w ->
    bound w = true ->
    batch_write_count w <= 1.


(** A [writeFile] call made while no project is bound reaches neither
    the queue nor the network, whatever happens before the parent store
    has settled. *)
Definition unbound_at_call_never_syncs : Prop :=
  forall w filePath content p w',
    reachable vfs_write vfs_remove w ->
    bound w = false ->
    run vfs_write vfs_remove
        [CallWriteFile filePath content; CallSetProject p; Resume 0; Resume 0]
        w
    = Some w' ->
    syncQueue (store w') = syncQueue (store w) /\ inflight w' = inflight w.

(** * Proofs *)

(** ** Facts about strings *)

Module JsStringFacts.
Import JsString.

Lemma lower_ascii_dot (a : ascii) :
  Ascii.eqb (lower_ascii a) "."%char = Ascii.eqb a "."%char.
Proof.
  destruct a as [[] [] [] [] [] [] [] []]; reflexivity.
Qed.

(** [toLowerCase] looks two bytes ahead, and so does the induction. *)
Lemma string_pair_ind (P : string -> Prop) :
  P EmptyString ->
  (forall a, P (String a EmptyString)) ->
  (forall a b r, P r -> P (String b r) -> P (String a (String b r))) ->
  forall s, P s.
Proof.
  intros H0 H1 H2 s. enough (H : P s /\ forall a, P (String a s)) by apply H.
  induction s as [|b r [IHr IHb]]; split; auto.
Qed.

Lemma toLowerCase_pair (a b : ascii) (r : string) :
  toLowerCase (String a (String b r))
  = if is_dotted_I a b
    then String "i" (String "204" (String "135" (toLowerCase r)))
    else String (lower_ascii a) (toLowerCase (String b r)).
Proof. reflexivity. Qed.

Lemma has_dotted_I_pair (a b : ascii) (r : string) :
  has_dotted_I (String a (String b r))
  = is_dotted_I a b || has_dotted_I (String b r).
Proof. reflexivity. Qed.

Lemma is_dotted_I_true (a b : ascii) :
  is_dotted_I a b = true -> a = "196"%char /\ b = "176"%char.
Proof.
  unfold is_dotted_I. intros H. apply andb_true_iff in H.
  destruct H as [Ha Hb]. now apply Ascii.eqb_eq in Ha, Hb.
Qed.

(** Where U+0130 does not occur the lower case keeps every position, and
    the last dot with them. *)
Lemma lastIndexOf_lower (s : string) :
  has_dotted_I s = false ->
  lastIndexOf "."%char (toLowerCase s) = lastIndexOf "."%char s.
Proof.
  induction s as [| a | a b r _ IH] using string_pair_ind; intros H.
  - reflexivity.
  - cbn [lastIndexOf toLowerCase]. cbv zeta. now rewrite lower_ascii_dot.
  - rewrite has_dotted_I_pair in H. apply orb_false_iff in H.
    destruct H as [Hab Hr]. rewrite toLowerCase_pair, Hab.
    remember (String b r) as t eqn:Et.
    cbn [lastIndexOf]. cbv zeta. now rewrite (IH Hr), lower_ascii_dot.
Qed.

(** The lower case neither makes nor loses a dot. *)
Lemma includes_lower_dot (s : string) :
  includes "."%char (toLowerCase s) = includes "."%char s.
Proof.
  induction s as [| a | a b r IHr IH] using string_pair_ind.
  - reflexivity.
  - cbn [includes toLowerCase]. now rewrite lower_ascii_dot.
  - rewrite toLowerCase_pair. destruct (is_dotted_I a b) eqn:Hab.
    + apply is_dotted_I_true in Hab. destruct Hab as [-> ->].
      cbn [includes]. rewrite IHr. reflexivity.
    + remember (String b r) as t eqn:Et.
      cbn [includes]. now rewrite IH, lower_ascii_dot.
Qed.

Lemma lastIndexOf_lower_bound (c : ascii) (s : string) :
  (-1 <= lastIndexOf c s)%Z.
Proof.
  induction s as [|a r IH]; cbn [lastIndexOf]; cbv zeta; [lia|].
  destruct (0 <=? lastIndexOf c r)%Z eqn:E.
  - apply Z.leb_le in E. lia.
  - destruct (Ascii.eqb a c); lia.
Qed.

Lemma take_drop (n : nat) (s : string) :
  (take n s ++ drop n s)%string = s.
Proof.
  revert s; induction n as [|n IH]; intros [|a r]; simpl; try reflexivity.
  now rewrite IH.
Qed.

Lemma includes_false_app (c : ascii) (s t : string) :
  includes c (s ++ t)%string = includes c s || includes c t.
Proof.
  induction s as [|a r IH]; simpl; [reflexivity|].
  now rewrite IH, orb_assoc.
Qed.

(** When the suffix [e] holds a needle, the last needle of [s ++ e] is
    the last needle of [e], shifted by the length of [s]. *)
Lemma lastIndexOf_app (c : ascii) (s e : string) :
  (0 <= lastIndexOf c e)%Z ->
  lastIndexOf c (s ++ e)%string
  = (Z.of_nat (String.length s) + lastIndexOf c e)%Z.
Proof.
  intros He. induction s as [|a r IH].
  - simpl. lia.
  - cbn [append lastIndexOf String.length]. cbv zeta. rewrite IH.
    assert (H : (0 <=? Z.of_nat (String.length r) + lastIndexOf c e)%Z = true)
      by (apply Z.leb_le; lia).
    rewrite H. rewrite Nat2Z.inj_succ. lia.
Qed.

Lemma drop_app_length (s e : string) :
  drop (String.length s) (s ++ e)%string = e.
Proof.
  induction s as [|a r IH]; simpl; [now destruct e|exact IH].
Qed.

Lemma includes_split (c : ascii) (s : string) :
  includes c s = true <->
  exists before after, s = (before ++ String c after)%string.
Proof.
  split.
  - induction s as [|a r IH]; simpl; [discriminate|].
    destruct (Ascii.eqb_spec a c) as [->|Hne]; simpl.
    + intros _. now exists EmptyString, r.
    + intros H. destruct (IH H) as (b & t & ->).
      now exists (String a b), t.
  - intros (b & t & ->). rewrite includes_false_app. simpl.
    rewrite Ascii.eqb_refl. simpl. apply orb_true_r.
Qed.

End JsStringFacts.

(** ** Facts about [isFileBinary] *)

Lemma array_includes_In (l : list string) (x : string) :
  array_includes l x = true <-> In x l.
Proof.
  unfold array_includes. rewrite existsb_exists. split.
  - intros (y & Hy & E). apply String.eqb_eq in E. now subst.
  - intros H. exists x. split; [exact H|apply String.eqb_refl].
Qed.

(** Every known extension is a dot followed by letters: its last dot is
    its first character. *)
Lemma binaryExtensions_dot (e : string) :
  In e binaryExtensions -> JsString.lastIndexOf "."%char e = 0%Z.
Proof.
  unfold binaryExtensions. simpl.
  intros H; repeat (destruct H as [<-|H]; [reflexivity|]); contradiction.
Qed.

(** What [isFileBinary] cuts off is always an end of the lower-cased
    path: a path it classifies by name ends in a listed extension. *)
Lemma extension_matches_sound (filePath : string) :
  array_includes binaryExtensions (extension_of filePath) = true ->
  spec_extension_matches filePath.
Proof.
  rewrite array_includes_In. unfold extension_of, spec_extension_matches.
  intros H.
  exists (JsString.take
            (Z.to_nat (JsString.lastIndexOf "."%char filePath))
            (JsString.toLowerCase filePath)).
  eexists. split; [exact H|].
  unfold JsString.substring. now rewrite JsStringFacts.take_drop.
Qed.

(** The converse needs the cut to fall on the last dot of the lower-cased
    path, which it does where U+0130 does not occur. *)
Lemma extension_matches_iff (filePath : string) :
  JsString.has_dotted_I filePath = false ->
  array_includes binaryExtensions (extension_of filePath) = true
  <-> spec_extension_matches filePath.
Proof.
  intros Hi. split; [apply extension_matches_sound|].
  rewrite array_includes_In. unfold extension_of, spec_extension_matches.
  intros (stem & e & He & Hl).
  rewrite <- (JsStringFacts.lastIndexOf_lower _ Hi), Hl.
  pose proof (binaryExtensions_dot He) as Hd.
  rewrite JsStringFacts.lastIndexOf_app by lia.
  unfold JsString.substring.
  rewrite Hd, Z.add_0_r, Nat2Z.id.
  now rewrite JsStringFacts.drop_app_length.
Qed.

(** ** Facts about the queue as a [Map] *)

Module JsMapFacts.
Import JsMap.

Section Facts.
Variable V : Type.
Implicit Types (m : t V) (k : string) (v : V).

Lemma keys_set k v m :
  forall k', In k' (keys (set k v m)) <-> k' = k \/ In k' (keys m).
Proof.
  induction m as [|[k0 v0] r IH]; intros k'; simpl.
  - intuition congruence.
  - destruct (String.eqb_spec k0 k) as [->|Hne]; simpl.
    + intuition congruence.
    + rewrite IH. intuition congruence.
Qed.

Lemma set_NoDup k v m : NoDup (keys m) -> NoDup (keys (set k v m)).
Proof.
  induction m as [|[k0 v0] r IH]; simpl; intros H.
  - constructor; [intros []|constructor].
  - inversion H as [|? ? Hnin Hr]; subst.
    destruct (String.eqb_spec k0 k) as [->|Hne]; simpl.
    + now constructor.
    + constructor; [|now apply IH].
      intros Hin. apply keys_set in Hin. destruct Hin as [->|Hin]; tauto.
Qed.

Lemma get_set_eq k v m : get k (set k v m) = Some v.
Proof.
  induction m as [|[k0 v0] r IH]; simpl.
  - now rewrite String.eqb_refl.
  - destruct (String.eqb k0 k) eqn:E; simpl.
    + now rewrite String.eqb_refl.
    + now rewrite E.
Qed.

Lemma get_set_ne k k' v m : k' <> k -> get k' (set k v m) = get k' m.
Proof.
  intros Hne. induction m as [|[k0 v0] r IH]; simpl.
  - destruct (String.eqb_spec k k'); [congruence|reflexivity].
  - destruct (String.eqb_spec k0 k) as [->|Hk]; simpl.
    + destruct (String.eqb_spec k k'); [congruence|reflexivity].
    + now rewrite IH.
Qed.

Lemma bindings_absent k m : ~ In k (keys m) -> bindings k m = [].
Proof.
  induction m as [|[k0 v0] r IH]; simpl; intros H; [reflexivity|].
  unfold bindings in *. simpl.
  destruct (String.eqb_spec k0 k) as [->|Hne]; [tauto|].
  apply IH. tauto.
Qed.

(** After [set], a well-formed map holds exactly the new value under
    the key: nothing of an older value is left. *)
Lemma bindings_set k v m :
  NoDup (keys m) -> bindings k (set k v m) = [(k, v)].
Proof.
  induction m as [|[k0 v0] r IH]; simpl; intros H.
  - unfold bindings. simpl. now rewrite String.eqb_refl.
  - inversion H as [|? ? Hnin Hr]; subst.
    destruct (String.eqb_spec k0 k) as [->|Hne].
    + unfold bindings. simpl. rewrite String.eqb_refl. f_equal.
      now apply bindings_absent.
    + unfold bindings in *. simpl.
      destruct (String.eqb_spec k0 k); [congruence|]. now apply IH.
Qed.

Lemma set_nonempty k v m : set k v m <> [].
Proof.
  destruct m as [|[k0 v0] r]; simpl; [discriminate|].
  destruct (String.eqb k0 k); discriminate.
Qed.

Lemma get_In k v m : get k m = Some v -> In (k, v) m.
Proof.
  induction m as [|[k0 v0] r IH]; simpl; [discriminate|].
  destruct (String.eqb_spec k0 k) as [->|Hne].
  - intros [= ->]. now left.
  - intros H. right. now apply IH.
Qed.

End Facts.

End JsMapFacts.

Lemma requeue_NoDup (batch : list BatchFile) (q : JsMap.t PendingWrite) :
  NoDup (JsMap.keys q) -> NoDup (JsMap.keys (requeue batch q)).
Proof.
  unfold requeue. revert q.
  induction batch as [|f r IH]; simpl; intros q H; [exact H|].
  apply IH. now apply JsMapFacts.set_NoDup.
Qed.

(** The batch lists the queue entry by entry: same paths, same contents,
    same flags, same order. *)
Lemma snapshot_for (filePath : string) (q : JsMap.t PendingWrite) :
  batch_for filePath (snapshot q)
  = map (fun e => {| path := fst e; content := pw_content (snd e);
                     isBinary := pw_isBinary (snd e) |})
        (JsMap.bindings filePath q).
Proof.
  unfold batch_for, snapshot, JsMap.bindings, JsMap.entries.
  induction q as [|[k v] r IH]; simpl; [reflexivity|].
  destruct (String.eqb k filePath); simpl; now rewrite IH.
Qed.

Lemma snapshot_In (filePath : string) (v : PendingWrite)
      (q : JsMap.t PendingWrite) :
  In (filePath, v) q ->
  In {| path := filePath; content := pw_content v; isBinary := pw_isBinary v |}
     (snapshot q).
Proof.
  intros H. unfold snapshot, JsMap.entries.
  apply in_map_iff. now exists (filePath, v).
Qed.

Lemma snapshot_nil (q : JsMap.t PendingWrite) : snapshot q = [] -> q = [].
Proof.
  destruct q; [reflexivity|discriminate].
Qed.

(** ** Facts about the methods *)

Lemma filter_remove_nth {A} (p : A -> bool) (i : nat) (l : list A) (x : A) :
  nth_error l i = Some x ->
  List.length (filter p l)
  = (if p x then 1 else 0) + List.length (filter p (remove_nth i l)).
Proof.
  revert i; induction l as [|a r IH]; intros [|i]; simpl; try discriminate.
  - intros [= ->]. destruct (p x); reflexivity.
  - intros H. specialize (IH _ H).
    destruct (p a), (p x); simpl in *; lia.
Qed.

Ltac unfold_methods :=
  unfold loadProjectFiles_listed, loadProjectFiles_fetched,
    loadProjectFiles_catch, writeFile_enqueue, writeFile_resume,
    writeFile_return, load_next, removeFile_resume, removeFile_settled,
    syncToProject, syncToProject_resume, syncToProject_catch, tick,
    processSyncQueue_resume, processSyncQueue_catch,
    processSyncQueue_finally, processSyncQueue, setProject, dispose,
    startAutoSync, bound in *.

Ltac split_cases :=
  repeat match goal with
         | |- context [match ?x with _ => _ end] => destruct x eqn:?; cbn in *
         | |- context [if ?x then _ else _] => destruct x eqn:?; cbn in *
         end.

Ltac bool_hyps :=
  repeat match goal with
         | H : _ || _ = false |- _ => apply orb_false_elim in H; destruct H
         | H : _ && _ = true |- _ => apply andb_prop in H; destruct H
         | H : negb _ = false |- _ => apply negb_false_iff in H
         | H : negb _ = true |- _ => apply negb_true_iff in H
         end.

Ltac use_flag :=
  repeat match goal with
         | H : isSyncing (store ?w) = _,
           H' : context [isSyncing (store ?w)] |- _ => rewrite H in H'
         end;
  repeat match goal with
         | H : context [if ?b then _ else _] |- _ => destruct b
         end.

(** Run one method on a symbolic world: unfold it, project the fields
    through the updates, and split on every branch it takes. *)
Ltac run_method :=
  unfold_methods; cbn in *; split_cases; bool_hyps.

Section EngineFacts.

Variable super_writeFile : string -> string -> FileMap -> FileMap * option string.
Variable super_removeFile : string -> FileMap -> FileMap * option string.

Local Notation "'stepE'" := (step super_writeFile super_removeFile).
Local Notation "'reachableE'" := (reachable super_writeFile super_removeFile).

(** *** [#processSyncQueue]: the guard and the drain *)


Lemma processSyncQueue_empty (w : World) :
  syncQueue (store w) = [] -> processSyncQueue w = w.
Proof.
  intros H. unfold processSyncQueue. rewrite H. simpl.
  now rewrite orb_true_r.
Qed.

Lemma processSyncQueue_unbound (w : World) :
  bound w = false -> processSyncQueue w = w.
Proof.
  intros H. unfold processSyncQueue. rewrite H. simpl.
  now rewrite orb_true_r.
Qed.

Lemma processSyncQueue_drain (w : World) :
  isSyncing (store w) = false ->
  syncQueue (store w) <> [] ->
  bound w = true ->
  processSyncQueue w
  = fetch (BatchWrite (form_value (projectId (store w)))
                      (snapshot (syncQueue (store w))))
          (ProcessK (snapshot (syncQueue (store w))))
          (on_store (fun s =>
                       set_syncQueue JsMap.empty
                         (set_projectState
                            (with_syncing true (projectState s))
                            (set_isSyncing true s)))
                    w).
Proof.
  intros Hs Hq Hb. unfold processSyncQueue. rewrite Hs, Hb.
  destruct (syncQueue (store w)) eqn:E; [congruence|]. simpl.
  unfold fetch, on_store; simpl. now rewrite E.
Qed.


End EngineFacts.

(** ** Invariants of the event loop *)

Section Invariants.

Variable super_writeFile : string -> string -> FileMap -> FileMap * option string.
Variable super_removeFile : string -> FileMap -> FileMap * option string.

Local Notation "'stepE'" := (step super_writeFile super_removeFile).
Local Notation "'reachableE'" := (reachable super_writeFile super_removeFile).

#[local] Arguments JsMap.set : simpl never.
#[local] Arguments JsMap.keys : simpl never.
#[local] Arguments requeue : simpl never.
#[local] Arguments snapshot : simpl never.
#[local] Arguments isFileBinary : simpl never.

Lemma step_single_flight (w w' : World) (e : Event) :
  single_flight w -> stepE w e = Some w' -> single_flight w'.
Proof.
  intros Hsf Hstep. unfold single_flight, process_count in *.
  destruct e; cbn [step] in Hstep.
  8: { (* a fetch settles: it leaves the list of outstanding calls *)
    destruct (nth_error (inflight w) i) as [f|] eqn:Hf; [|discriminate].
    injection Hstep as <-.
    rewrite (filter_remove_nth is_process _ _ Hf) in Hsf.
    destruct f as [rq k]. unfold is_process in Hsf at 1. cbn [cont] in *.
    destruct k; cbn [resume_fetch]; run_method; use_flag;
      try congruence; try lia. }
  7: { destruct (nth_error (tasks w) i) as [t|] eqn:Ht; [|discriminate].
       injection Hstep as <-.
       destruct t; cbn [resume_task]; run_method; use_flag;
         try congruence; try lia. }
  7: { destruct (existsb (Nat.eqb h) (intervals w)); [|discriminate].
       injection Hstep as <-. run_method; use_flag; try congruence; try lia. }
  7: { destruct (timeouts w) eqn:Ht; [discriminate|].
       injection Hstep as <-. run_method; use_flag; try congruence; try lia. }
  all: injection Hstep as <-; run_method; use_flag; try congruence; try lia.
Qed.

Lemma step_queue_wf (w w' : World) (e : Event) :
  queue_wf w -> stepE w e = Some w' -> queue_wf w'.
Proof.
  intros Hwf Hstep. unfold queue_wf in *.
  assert (Hset : forall k v, NoDup (JsMap.keys (JsMap.set k v (syncQueue (store w)))))
    by (intros; now apply JsMapFacts.set_NoDup).
  assert (Hre : forall b, NoDup (JsMap.keys (requeue b (syncQueue (store w)))))
    by (intros; now apply requeue_NoDup).
  assert (Hnil : NoDup (JsMap.keys (@JsMap.empty PendingWrite)))
    by constructor.
  destruct e; cbn [step] in Hstep.
  8: { destruct (nth_error (inflight w) i) as [f|] eqn:Hf; [|discriminate].
       injection Hstep as <-. destruct f as [rq k]. cbn [cont].
       destruct k; cbn [resume_fetch]; run_method; auto. }
  7: { destruct (nth_error (tasks w) i) as [t|] eqn:Ht; [|discriminate].
       injection Hstep as <-.
       destruct t; cbn [resume_task]; run_method; auto. }
  7: { destruct (existsb (Nat.eqb h) (intervals w)); [|discriminate].
       injection Hstep as <-. run_method; auto. }
  7: { destruct (timeouts w) eqn:Ht; [discriminate|].
       injection Hstep as <-. run_method; auto. }
  all: injection Hstep as <-; run_method; auto.
Qed.

Lemma clearInterval_only (h : nat) :
  filter (fun h' => negb (Nat.eqb h' h)) [h] = [].
Proof.
  simpl. now rewrite Nat.eqb_refl.
Qed.

Lemma step_timers_wf (w w' : World) (e : Event) :
  timers_wf w -> stepE w e = Some w' -> timers_wf w'.
Proof.
  intros [Hlive Hfresh] Hstep. unfold timers_wf in *.
  destruct e; cbn [step] in Hstep.
  8: { destruct (nth_error (inflight w) i) as [f|] eqn:Hf; [|discriminate].
       injection Hstep as <-. destruct f as [rq k]. cbn [cont].
       destruct k; cbn [resume_fetch]; run_method; auto. }
  7: { destruct (nth_error (tasks w) i) as [t|] eqn:Ht; [|discriminate].
       injection Hstep as <-.
       destruct t; cbn [resume_task]; run_method; auto. }
  7: { destruct (existsb (Nat.eqb h) (intervals w)); [|discriminate].
       injection Hstep as <-. run_method; auto. }
  7: { destruct (timeouts w) eqn:Ht; [discriminate|].
       injection Hstep as <-. run_method; auto. }
  1: { (* setProject *)
    injection Hstep as <-. unfold setProject, startAutoSync, dispose.
    destruct p; cbn;
      destruct (syncInterval (store w)) as [h|] eqn:Hh; cbn;
      rewrite ?Hh; cbn; rewrite Hlive; try rewrite clearInterval_only;
      (split; [reflexivity|]);
      intros h' Hin; try contradiction;
      destruct Hin as [<-|[]]; lia. }
  5: { (* dispose *)
    injection Hstep as <-. unfold dispose.
    destruct (syncInterval (store w)) as [h|] eqn:Hh; cbn.
    - rewrite Hlive, clearInterval_only. split; [reflexivity|intros ? []].
    - rewrite Hh. split; [exact Hlive|exact Hfresh]. }
  all: injection Hstep as <-; run_method; auto.
Qed.

Lemma init_invariants (fm : FileMap) :
  single_flight (init fm) /\ queue_wf (init fm) /\ timers_wf (init fm).
Proof.
  unfold single_flight, queue_wf, timers_wf. cbn.
  repeat split; try constructor; intros; contradiction.
Qed.

Lemma reachable_invariants (w : World) :
  reachableE w -> single_flight w /\ queue_wf w /\ timers_wf w.
Proof.
  induction 1 as [fm|w e w' _ (Hsf & Hq & Ht) Hstep].
  - apply init_invariants.
  - split; [|split].
    + eapply step_single_flight; eauto.
    + eapply step_queue_wf; eauto.
    + eapply step_timers_wf; eauto.
Qed.

End Invariants.

(** ** Coalescing *)

Section Coalescing.

#[local] Arguments JsMap.set : simpl never.
#[local] Arguments isFileBinary : simpl never.





(** When nothing is in flight the write itself drains the queue, and the
    batch carries the written content for the path and nothing older. *)
Lemma write_drains_at_once
      (w : World) (filePath content : string) (binary : bool) :
  queue_wf w ->
  bound w = true ->
  isSyncing (store w) = false ->
  let w' := writeFile_enqueue filePath content binary None w in
  exists batch,
    inflight w'
    = {| request := BatchWrite (form_value (projectId (store w))) batch;
         cont := ProcessK batch |} :: inflight w
    /\ batch_for filePath batch
       = [{| path := filePath; content := content; isBinary := binary |}]
    /\ syncQueue (store w') = [].
Proof.
  intros Hwf Hbound Hidle w'. subst w'.
  unfold writeFile_enqueue, writeFile_return.
  eexists. rewrite processSyncQueue_drain.
  - cbn. repeat split. rewrite snapshot_for.
    rewrite JsMapFacts.bindings_set by exact Hwf. reflexivity.
  - exact Hidle.
  - cbn. apply JsMapFacts.set_nonempty.
  - exact Hbound.
Qed.

End Coalescing.

(** ** The scheduler, the explicit flush and the unbound case *)

Section Contracts.

Variable super_writeFile : string -> string -> FileMap -> FileMap * option string.
Variable super_removeFile : string -> FileMap -> FileMap * option string.

Local Notation "'stepE'" := (step super_writeFile super_removeFile).
Local Notation "'reachableE'" := (reachable super_writeFile super_removeFile).

#[local] Arguments JsMap.set : simpl never.
#[local] Arguments requeue : simpl never.
#[local] Arguments snapshot : simpl never.
#[local] Arguments isFileBinary : simpl never.
#[local] Arguments filesToSync : simpl never.

Lemma run_reachable (es : list Event) (w w' : World) :
  reachableE w ->
  run super_writeFile super_removeFile es w = Some w' ->
  reachableE w'.
Proof.
  revert w. induction es as [|e r IH]; intros w Hw; cbn [run].
  - now intros [= <-].
  - destruct (stepE w e) as [w1|] eqn:E; [|discriminate].
    apply IH. econstructor; eauto.
Qed.

(** C6. When the queue is empty, so that a drain would snapshot nothing,
    the periodic callback and [#processSyncQueue] return at once: the
    world after them is the world before them, with no new request and
    the same observable status. *)
Theorem empty_queue_short_circuit (w : World) :
  snapshot (syncQueue (store w)) = [] ->
  processSyncQueue w = w
  /\ tick w = w
  /\ forall h w', stepE w (Tick h) = Some w' -> w' = w.
Proof.
  intros H. apply snapshot_nil in H.
  assert (Ht : tick w = w) by (unfold tick; now rewrite H).
  split; [now apply processSyncQueue_empty|]. split; [exact Ht|].
  intros h w'. cbn [step].
  destruct (existsb (Nat.eqb h) (intervals w)); [|discriminate].
  rewrite Ht. now intros [= <-].
Qed.

(** The retry timer on an empty queue: it is used up, and that is all. *)
Lemma timeout_on_empty_queue (w w' : World) :
  syncQueue (store w) = [] ->
  stepE w Timeout = Some w' ->
  store w' = store w /\ inflight w' = inflight w /\ log w' = log w.
Proof.
  intros H. cbn [step]. destruct (timeouts w) as [|n]; [discriminate|].
  rewrite processSyncQueue_empty by exact H. now intros [= <-].
Qed.

(** C7. [syncToProject] with no project bound throws in the turn of the
    call: the promise is rejected, no request is issued, the store and
    its observable status are as before.  And when the transmission of an
    explicit flush fails, by a rejected [fetch] or a status that is not
    [ok], the promise of the call is rejected, and the parent's [files]
    are as they were. *)
Theorem syncToProject_contract (w : World) :
  (bound w = false ->
   exists w',
     stepE w CallSyncToProject = Some w'
     /\ store w' = store w
     /\ inflight w' = inflight w
     /\ settled w'
        = (CSyncToProject, Thrown "No project set for syncing") :: settled w)
  /\ (forall i rq count r w',
         nth_error (inflight w) i
         = Some {| request := rq; cont := SyncK count |} ->
         response_ok r = false ->
         stepE w (Respond i r) = Some w' ->
         exists reason,
           settled w' = (CSyncToProject, Thrown reason) :: settled w
           /\ files (store w') = files (store w)
           /\ syncing (projectState (store w')) = false).
Proof.
  split.
  - intros H. eexists. cbn [step]. unfold syncToProject. rewrite H. cbn.
    repeat split.
  - intros i rq count r w' Hf Hr. cbn [step]. rewrite Hf.
    intros [= <-]. cbn [cont resume_fetch].
    destruct r as [[|] body|reason]; [discriminate| |]; cbn; eauto.
Qed.

(** A flush that has something to send issues one request, and reports
    its success only when the response is [ok]. *)
Lemma syncToProject_sends (w : World) :
  bound w = true ->
  filesToSync (files (store w)) <> [] ->
  syncToProject w
  = fetch (BatchWrite (form_value (projectId (store w)))
                      (filesToSync (files (store w))))
          (SyncK (List.length (filesToSync (files (store w)))))
          (on_store (fun s => set_projectState
                                (with_syncing true (projectState s)) s) w).
Proof.
  intros Hb Hne. unfold syncToProject. rewrite Hb. cbn.
  destruct (filesToSync (files (store w))) eqn:E; [congruence|].
  reflexivity.
Qed.

(** C10, as the code has it.  [#projectId] is read when the parent store
    has settled, not when the method is called.  A [writeFile] or
    [removeFile] call itself changes nothing but the list of suspended
    methods; and when the parent settles while no project is bound, the
    [files] are what the parent left, the queue is as before, no request
    has been issued and the method is over. *)
Theorem unbound_calls_bypass_sync
        (w : World) (i : nat) (filePath content : string) :
  bound w = false ->
  (forall w',
      stepE w (CallWriteFile filePath content) = Some w' ->
      store w' = store w /\ inflight w' = inflight w)
  /\ (forall w',
         stepE w (CallRemoveFile filePath) = Some w' ->
         store w' = store w /\ inflight w' = inflight w)
  /\ (forall w',
         nth_error (tasks w) i = Some (WriteSuper filePath content None) ->
         stepE w (Resume i) = Some w' ->
         files (store w')
         = fst (super_writeFile filePath content (files (store w)))
         /\ syncQueue (store w') = syncQueue (store w)
         /\ inflight w' = inflight w
         /\ tasks w' = remove_nth i (tasks w))
  /\ (forall w',
         nth_error (tasks w) i = Some (RemoveSuper filePath) ->
         stepE w (Resume i) = Some w' ->
         files (store w') = fst (super_removeFile filePath (files (store w)))
         /\ syncQueue (store w') = syncQueue (store w)
         /\ inflight w' = inflight w
         /\ tasks w' = remove_nth i (tasks w)).
Proof.
  intros Hu. unfold bound in Hu.
  split; [|split; [|split]].
  - cbn [step]. now intros w' [= <-].
  - cbn [step]. now intros w' [= <-].
  - intros w' Ht. cbn [step]. rewrite Ht. intros [= <-].
    cbn [resume_task]. unfold writeFile_resume, writeFile_return, bound.
    destruct (super_writeFile filePath content _) as [fm [e|]]; cbn;
      rewrite ?Hu; repeat split.
  - intros w' Ht. cbn [step]. rewrite Ht. intros [= <-].
    cbn [resume_task]. unfold removeFile_resume, bound.
    destruct (super_removeFile filePath _) as [fm [e|]]; cbn;
      rewrite ?Hu; repeat split.
Qed.

(** C3, as the code has it.  [setProject] sends nothing and leaves the
    queue as it is; it stops the interval of the previous binding, so
    that the only live interval afterwards is the new binding's, if there
    is one; it resets the observable status; and while no project is
    bound the queue is not drained. *)
Theorem rebind_keeps_queue_stops_tick
        (w w' : World) (p : option ProjectMetadata) :
  reachableE w ->
  stepE w (CallSetProject p) = Some w' ->
  syncQueue (store w') = syncQueue (store w)
  /\ inflight w' = inflight w
  /\ timeouts w' = timeouts w
  /\ (forall h, syncInterval (store w) = Some h ->
                ~ In h (intervals w') /\ stepE w' (Tick h) = None)
  /\ intervals w' = match p with
                    | Some _ => [next_handle w]
                    | None => []
                    end
  /\ projectState (store w')
     = {| project := p; syncing := false; lastSyncedAt := None |}
  /\ (p = None -> processSyncQueue w' = w').
Proof.
  intros Hreach Hstep.
  destruct (reachable_invariants Hreach) as (_ & _ & Hlive & Hfresh).
  cbn [step] in Hstep. injection Hstep as <-.
  assert (Hiv : intervals (setProject p w)
                = match p with
                  | Some _ => [next_handle w]
                  | None => []
                  end).
  { unfold setProject, startAutoSync. destruct p; cbn;
      destruct (syncInterval (store w)) as [h|] eqn:Hh; cbn;
      rewrite Hlive; now rewrite ?clearInterval_only. }
  split; [|split; [|split; [|split; [|split; [|split]]]]].
  1-3, 6: unfold setProject, startAutoSync; destruct p; cbn;
    destruct (syncInterval (store w)); reflexivity.
  - intros h Hh. rewrite Hh in Hlive.
    assert (Hlt : h < next_handle w)
      by (apply Hfresh; rewrite Hlive; now left).
    split.
    + intros Hin. rewrite Hiv in Hin.
      destruct p; [destruct Hin as [E|[]]; lia|contradiction].
    + cbn [step]. rewrite Hiv.
      destruct p; cbn; [|reflexivity].
      destruct (Nat.eqb_spec h (next_handle w)); [lia|reflexivity].
  - exact Hiv.
  - intros ->. apply processSyncQueue_unbound.
    unfold bound, setProject. cbn.
    destruct (syncInterval (store w)); reflexivity.
Qed.

(** C4, for the transmissions of the queue.  In every reachable state at
    most one transmission issued by [#processSyncQueue] is outstanding,
    and one is outstanding exactly when [#isSyncing] is set, whatever
    writes, ticks, retries, rebinds and explicit flushes are interleaved. *)
Theorem queue_driven_single_flight (w : World) :
  reachableE w ->
  process_count w = (if isSyncing (store w) then 1 else 0)
  /\ process_count w <= 1.
Proof.
  intros Hreach.
  destruct (reachable_invariants Hreach) as (Hsf & _ & _).
  unfold single_flight in Hsf. split; [exact Hsf|].
  rewrite Hsf. destruct (isSyncing (store w)); lia.
Qed.

End Contracts.

(** ** The initial load *)

Section InitialLoad.

Variable super_writeFile : string -> string -> FileMap -> FileMap * option string.
Variable super_removeFile : string -> FileMap -> FileMap * option string.

Local Notation "'stepE'" := (step super_writeFile super_removeFile).

#[local] Arguments JsMap.set : simpl never.
#[local] Arguments isFileBinary : simpl never.

(** The newest outstanding [fetch] settles. *)
Lemma respond_newest (rq : Request) (k : FetchCont) (r : Response) (w : World) :
  stepE (fetch rq k w) (Respond 0 r) = Some (resume_fetch k r w).
Proof.
  destruct w. reflexivity.
Qed.








End InitialLoad.

(** ** The end of a transmission *)

Section Transmission.

#[local] Arguments JsMap.set : simpl never.
#[local] Arguments requeue : simpl never.

(** A path the batch does not list keeps its queue entry. *)
Lemma requeue_get_other (batch : list BatchFile) (q : JsMap.t PendingWrite)
      (k : string) :
  ~ In k (map path batch) -> JsMap.get k (requeue batch q) = JsMap.get k q.
Proof.
  unfold requeue. revert q.
  induction batch as [|f r IH]; intros q Hk; cbn [fold_left]; [reflexivity|].
  cbn [map In] in Hk. rewrite IH by tauto.
  apply JsMapFacts.get_set_ne. intros ->. tauto.
Qed.

(** A path the batch lists gets the value of the batch, whatever the
    queue held for it. *)
Lemma requeue_get_listed (batch : list BatchFile) (f : BatchFile)
      (q : JsMap.t PendingWrite) :
  NoDup (map path batch) ->
  In f batch ->
  JsMap.get (path f) (requeue batch q)
  = Some {| pw_content := content f; pw_isBinary := isBinary f |}.
Proof.
  revert q. induction batch as [|f0 r IH]; intros q Hnd Hin; [contradiction|].
  cbn [map] in Hnd. inversion Hnd as [|? ? Hnin Hr]; subst.
  change (requeue (f0 :: r) q)
    with (requeue r (JsMap.set (path f0)
                               {| pw_content := content f0;
                                  pw_isBinary := isBinary f0 |} q)).
  destruct Hin as [->|Hin].
  - rewrite requeue_get_other by exact Hnin.
    apply JsMapFacts.get_set_eq.
  - now apply IH.
Qed.

(** What the end of a failed transmission of [#processSyncQueue] does:
    nothing is thrown to a caller, one error is logged, both flags are
    cleared; the batch is put back when the response was not [ok], and
    the queue is left alone when [fetch] was rejected. *)
Lemma failed_transmission (batch : list BatchFile) (r : Response) (w : World) :
  response_ok r = false ->
  let w' := processSyncQueue_resume batch r w in
  settled w' = settled w
  /\ log w' = ErrProcessQueue :: log w
  /\ syncing (projectState (store w')) = false
  /\ isSyncing (store w') = false
  /\ inflight w' = inflight w
  /\ syncQueue (store w')
     = match r with
       | Resolved _ _ => requeue batch (syncQueue (store w))
       | Rejected _ => syncQueue (store w)
       end.
Proof.
  intros Hr. destruct r as [[|] body|reason]; [discriminate| |];
    unfold processSyncQueue_resume, processSyncQueue_catch,
      processSyncQueue_finally; cbn;
    match goal with
    | |- context [if ?b then _ else _] => destruct b
    end; cbn; repeat split.
Qed.

(** A transmission that succeeds, or whose [fetch] is rejected, leaves
    the queue to the writes that arrived in the meantime. *)
Lemma completed_transmission_keeps_queue
      (batch : list BatchFile) (r : Response) (w : World) :
  response_ok r = true \/ (exists reason, r = Rejected reason) ->
  syncQueue (store (processSyncQueue_resume batch r w)) = syncQueue (store w).
Proof.
  intros [Hr|(reason & ->)].
  - destruct r as [[|] body|reason]; try discriminate.
    unfold processSyncQueue_resume, processSyncQueue_finally. cbn.
    match goal with
    | |- context [if ?b then _ else _] => destruct b
    end; reflexivity.
  - unfold processSyncQueue_resume, processSyncQueue_catch,
      processSyncQueue_finally. cbn.
    match goal with
    | |- context [if ?b then _ else _] => destruct b
    end; reflexivity.
Qed.

End Transmission.

(** ** The theorems at concrete worlds *)

Lemma world_after_reachable (es : list Event) :
  run_vfs es <> None -> reachable vfs_write vfs_remove (world_after es).
Proof.
  unfold world_after. intros H.
  destruct (run_vfs es) as [w|] eqn:E; [|congruence].
  eapply run_reachable; [apply (reachable_init vfs_write vfs_remove [])|exact E].
Qed.


Lemma empty_queue_short_circuit_witness :
  snapshot (syncQueue (store (world_after [bind "A"]))) = []
  /\ processSyncQueue (world_after [bind "A"]) = world_after [bind "A"]
  /\ step vfs_write vfs_remove (world_after [bind "A"]) (Tick 1)
     = Some (world_after [bind "A"]).
Proof.
  assert (H : snapshot (syncQueue (store (world_after [bind "A"]))) = [])
    by reflexivity.
  split; [exact H|]. split.
  - exact (proj1 (@empty_queue_short_circuit vfs_write vfs_remove
                    (world_after [bind "A"]) H)).
  - reflexivity.
Defined.

Lemma syncToProject_contract_witness :
  (bound (init []) = false
   /\ exists w',
       step vfs_write vfs_remove (init []) CallSyncToProject = Some w'
       /\ store w' = store (init [])
       /\ inflight w' = inflight (init [])
       /\ settled w'
          = (CSyncToProject, Thrown "No project set for syncing")
              :: settled (init []))
  /\ (nth_error (inflight (world_after overlap_trace)) 0
      = Some {| request := BatchWrite "A" [{| path := "/a.txt"; content := "1";
                                             isBinary := false |}];
                cont := SyncK 1 |}
      /\ response_ok (Rejected "NetworkError") = false
      /\ step vfs_write vfs_remove (world_after overlap_trace)
              (Respond 0 (Rejected "NetworkError"))
         = Some (world_after (overlap_trace
                                ++ [Respond 0 (Rejected "NetworkError")]))
      /\ exists reason,
          settled (world_after (overlap_trace
                                  ++ [Respond 0 (Rejected "NetworkError")]))
          = (CSyncToProject, Thrown reason)
              :: settled (world_after overlap_trace)
          /\ files (store (world_after
                             (overlap_trace
                                ++ [Respond 0 (Rejected "NetworkError")])))
             = files (store (world_after overlap_trace))
          /\ syncing (projectState
                        (store (world_after
                                  (overlap_trace
                                     ++ [Respond 0 (Rejected "NetworkError")]))))
             = false).
Proof.
  split.
  - split; [reflexivity|].
    exact (proj1 (@syncToProject_contract vfs_write vfs_remove (init []))
                 eq_refl).
  - assert (H1 : nth_error (inflight (world_after overlap_trace)) 0
                 = Some {| request := BatchWrite "A"
                                        [{| path := "/a.txt"; content := "1";
                                            isBinary := false |}];
                           cont := SyncK 1 |})
      by (vm_compute; reflexivity).
    assert (H2 : response_ok (Rejected "NetworkError") = false)
      by reflexivity.
    assert (H3 : step vfs_write vfs_remove (world_after overlap_trace)
                      (Respond 0 (Rejected "NetworkError"))
                 = Some (world_after
                           (overlap_trace
                              ++ [Respond 0 (Rejected "NetworkError")])))
      by (vm_compute; reflexivity).
    split; [exact H1|]. split; [exact H2|]. split; [exact H3|].
    exact (proj2 (@syncToProject_contract
                    vfs_write vfs_remove (world_after overlap_trace))
                 0 _ 1 _ _ H1 H2 H3).
Defined.

Lemma unbound_calls_bypass_sync_witness :
  bound (world_after [CallWriteFile "/a.txt" "1"]) = false
  /\ nth_error (tasks (world_after [CallWriteFile "/a.txt" "1"])) 0
     = Some (WriteSuper "/a.txt" "1" None)
  /\ step vfs_write vfs_remove
          (world_after [CallWriteFile "/a.txt" "1"]) (Resume 0)
     = Some (world_after [CallWriteFile "/a.txt" "1"; Resume 0])
  /\ files (store (world_after [CallWriteFile "/a.txt" "1"; Resume 0]))
     = fst (vfs_write "/a.txt" "1"
              (files (store (world_after [CallWriteFile "/a.txt" "1"]))))
  /\ syncQueue (store (world_after [CallWriteFile "/a.txt" "1"; Resume 0]))
     = syncQueue (store (world_after [CallWriteFile "/a.txt" "1"]))
  /\ inflight (world_after [CallWriteFile "/a.txt" "1"; Resume 0])
     = inflight (world_after [CallWriteFile "/a.txt" "1"])
  /\ tasks (world_after [CallWriteFile "/a.txt" "1"; Resume 0])
     = remove_nth 0 (tasks (world_after [CallWriteFile "/a.txt" "1"])).
Proof.
  assert (H1 : bound (world_after [CallWriteFile "/a.txt" "1"]) = false)
    by reflexivity.
  assert (H2 : nth_error (tasks (world_after [CallWriteFile "/a.txt" "1"])) 0
               = Some (WriteSuper "/a.txt" "1" None))
    by reflexivity.
  assert (H3 : step vfs_write vfs_remove
                    (world_after [CallWriteFile "/a.txt" "1"]) (Resume 0)
               = Some (world_after [CallWriteFile "/a.txt" "1"; Resume 0]))
    by (vm_compute; reflexivity).
  split; [exact H1|]. split; [exact H2|]. split; [exact H3|].
  exact (proj1 (proj2 (proj2
           (@unbound_calls_bypass_sync
              vfs_write vfs_remove
              (world_after [CallWriteFile "/a.txt" "1"]) 0 "/a.txt" "1" H1)))
           _ H2 H3).
Defined.

Lemma rebind_keeps_queue_stops_tick_witness :
  reachable vfs_write vfs_remove pending_world
  /\ step vfs_write vfs_remove pending_world
          (CallSetProject (Some (sample_project "B")))
     = Some (setProject (Some (sample_project "B")) pending_world)
  /\ syncQueue (store (setProject (Some (sample_project "B")) pending_world))
     = syncQueue (store pending_world)
  /\ inflight (setProject (Some (sample_project "B")) pending_world)
     = inflight pending_world
  /\ timeouts (setProject (Some (sample_project "B")) pending_world)
     = timeouts pending_world
  /\ (syncInterval (store pending_world) = Some 1
      /\ ~ In 1 (intervals (setProject (Some (sample_project "B"))
                                       pending_world))
      /\ step vfs_write vfs_remove
              (setProject (Some (sample_project "B")) pending_world) (Tick 1)
         = None).
Proof.
  assert (H : reachable vfs_write vfs_remove pending_world)
    by (apply world_after_reachable; discriminate).
  assert (E : step vfs_write vfs_remove pending_world
                   (CallSetProject (Some (sample_project "B")))
              = Some (setProject (Some (sample_project "B")) pending_world))
    by reflexivity.
  assert (Hh : syncInterval (store pending_world) = Some 1)
    by (vm_compute; reflexivity).
  pose proof (@rebind_keeps_queue_stops_tick
                vfs_write vfs_remove pending_world _
                (Some (sample_project "B")) H E)
    as (Hq & Hi & Ht & Htick & _).
  split; [exact H|]. split; [exact E|]. split; [exact Hq|].
  split; [exact Hi|]. split; [exact Ht|]. split; [exact Hh|].
  exact (Htick 1 Hh).
Defined.

Lemma queue_driven_single_flight_witness :
  reachable vfs_write vfs_remove (world_after overlap_trace)
  /\ process_count (world_after overlap_trace) <= 1.
Proof.
  assert (H : reachable vfs_write vfs_remove (world_after overlap_trace))
    by (apply world_after_reachable; discriminate).
  split; [exact H|].
  exact (proj2 (@queue_driven_single_flight vfs_write vfs_remove _ H)).
Defined.


(** ** Where the statements of the specification fail *)

(** C2.  The batch [/a.txt = 1, /b.txt = 2] is in flight when [/a.txt] is
    written again with [3]; the batch is answered with a status that is
    not [ok]; the requeue then sets [/a.txt] back to [1]: the fresher
    write is gone from the queue. *)
Theorem requeue_overwrites_fresher_write :
  option_map (fun w => syncQueue (store w)) (run_vfs stale_requeue_trace)
  = Some [("/a.txt", {| pw_content := "1"; pw_isBinary := false |});
          ("/b.txt", {| pw_content := "2"; pw_isBinary := false |})].
Proof.
  reflexivity.
Qed.

(** C5.  The batch [/a.txt = 1] is in flight when [fetch] is rejected:
    the failure is logged and the flags are cleared, but nothing is put
    back into the queue and no retry is scheduled. *)
Theorem network_error_drops_batch :
  option_map (fun w => (syncQueue (store w), inflight w, timeouts w, log w,
                        syncing (projectState (store w)), isSyncing (store w)))
             (run_vfs network_error_trace)
  = Some ([], [], 0, [ErrProcessQueue], false, false).
Proof.
  reflexivity.
Qed.

(** C1.  [/a.txt] is in flight with [1] and is written twice more: the
    queue holds the one entry [/a.txt = 3].  The batch in flight is then
    answered with a status that is not [ok]: the requeue sets the entry
    back to [1], and the next drain sends [1], not the content of the
    last write; nothing is left in the queue for a later drain. *)
Theorem stale_requeue_undoes_coalescing :
  option_map (fun w => (syncQueue (store w), map request (inflight w)))
             (run_vfs coalesce_trace)
  = Some ([("/a.txt", {| pw_content := "3"; pw_isBinary := false |})],
          [BatchWrite "A" [{| path := "/a.txt"; content := "1";
                              isBinary := false |}]])
  /\ option_map (fun w => syncQueue (store w))
                (run_vfs (coalesce_trace ++ [Respond 0 answer_not_ok]))
     = Some [("/a.txt", {| pw_content := "1"; pw_isBinary := false |})]
  /\ option_map (fun w => (syncQueue (store w), map request (inflight w)))
                (run_vfs (coalesce_trace ++ failed_attempt))
     = Some ([],
             [BatchWrite "A" [{| path := "/a.txt"; content := "1";
                                 isBinary := false |}]]).
Proof.
  split; [|split]; vm_compute; reflexivity.
Qed.

(** C8.  The path [/\u0130.png] ends in [.png], an extension of the
    list, so that the file is binary in the words of the specification.
    [isFileBinary] takes the position of the last dot in the path and
    cuts the lower-cased path there; the lower case [/i\u0307.png] is
    one position longer than the path, so that the cut falls before the
    dot and what is cut off is no extension of the list: [isFileBinary]
    answers [false], and the write is queued and sent with that flag. *)
Theorem isFileBinary_misses_dotted_I :
  spec_binary dotted_I_png "x"
  /\ JsString.toLowerCase dotted_I_png
     = String "/"%char
         (String "i"%char (String "204"%char (String "135"%char ".png")))
  /\ String.length (JsString.toLowerCase dotted_I_png)
     = S (String.length dotted_I_png)
  /\ isFileBinary dotted_I_png "x" = false
  /\ option_map (fun w => map request (inflight w))
                (run_vfs ([bind "A"] ++ write dotted_I_png "x"))
     = Some [BatchWrite "A" [{| path := dotted_I_png; content := "x";
                                isBinary := false |}]].
Proof.
  split.
  - left.
    exists (String "/"%char
              (String "i"%char
                 (String "204"%char (String "135"%char EmptyString)))),
           ".png".
    split; [|reflexivity]. unfold binaryExtensions. simpl. tauto.
  - repeat split; vm_compute; reflexivity.
Qed.

(** C10, as stated, fails: [writeFile] is called while no project is
    bound, project [A] is bound before the parent store has settled, and
    the write is classified, queued and sent to project [A]. *)
Lemma late_bind_syncs_unbound_call :
  bound (init []) = false
  /\ option_map (fun w => (syncQueue (store w), map request (inflight w)))
                (run_vfs late_bind_trace)
     = Some ([],
             [BatchWrite "A" [{| path := "/a.txt"; content := "1";
                                 isBinary := false |}]])
  /\ ~ unbound_at_call_never_syncs.
Proof.
  split; [reflexivity|]. split; [vm_compute; reflexivity|].
  intros H.
  assert (E : run vfs_write vfs_remove late_bind_trace (init [])
              = Some (world_after late_bind_trace))
    by (vm_compute; reflexivity).
  destruct (H (init []) "/a.txt" "1" (Some (sample_project "A")) _
              (reachable_init vfs_write vfs_remove []) eq_refl E)
    as [_ Hi].
  vm_compute in Hi. discriminate Hi.
Qed.

(** C3, as stated, fails: [/b.txt], written under project [A], is still
    in the queue after the rebind to [B], and the next drain sends it to
    project [B]. *)
Lemma rebind_carries_queue_over :
  option_map (fun w => syncQueue (store w)) (run_vfs rebind_trace)
  = Some [("/b.txt", {| pw_content := "2"; pw_isBinary := false |})]
  /\ option_map (fun w => map request (inflight w))
                (run_vfs (rebind_trace ++ [Respond 0 answer_ok; Timeout]))
     = Some [BatchWrite "B" [{| path := "/b.txt"; content := "2";
                                isBinary := false |}]]
  /\ ~ rebind_discards_queue.
Proof.
  split; [reflexivity|]. split; [reflexivity|].
  intros H.
  assert (Hr : reachable vfs_write vfs_remove pending_world)
    by (apply world_after_reachable; discriminate).
  assert (Hne : JsString.or_else (option_map id (Some (sample_project "B"))) None
                <> projectId (store pending_world)) by discriminate.
  pose proof (H pending_world (Some (sample_project "B"))
                (setProject (Some (sample_project "B")) pending_world)
                Hr Hne eq_refl) as Hq.
  discriminate Hq.
Qed.

(** C4, as stated, fails: with [/a.txt] in flight from the queue, an
    explicit flush issues a second batch transmission. *)
Lemma explicit_flush_overlaps :
  option_map (fun w => (batch_write_count w,
                        syncing (projectState (store w)),
                        map request (inflight w)))
             (run_vfs overlap_trace)
  = Some (2, true,
          [BatchWrite "A" [{| path := "/a.txt"; content := "1";
                              isBinary := false |}];
           BatchWrite "A" [{| path := "/a.txt"; content := "1";
                              isBinary := false |}]])
  /\ ~ batch_single_flight.
Proof.
  split; [reflexivity|].
  intros H.
  assert (Hr : reachable vfs_write vfs_remove (world_after overlap_trace))
    by (apply world_after_reachable; discriminate).
  specialize (H _ Hr eq_refl). vm_compute in H. lia.
Qed.


(** * Further properties of the engine *)

(** ** What every outstanding request looks like *)

Lemma Forall_remove_nth {A} {P : A -> Prop} (i : nat) {l : list A} :
  Forall P l -> Forall P (remove_nth i l).
Proof.
  revert i; induction l as [|a r IH]; intros [|i] H; simpl; auto;
    inversion H; subst; auto.
Qed.

Lemma Forall_nth_error {A} {P : A -> Prop} {i : nat} {l : list A} {x : A} :
  Forall P l -> nth_error l i = Some x -> P x.
Proof.
  intros H E. apply nth_error_In in E. rewrite Forall_forall in H. auto.
Qed.

Lemma Forall_set {V} {P : string * V -> Prop} (k : string) (v : V)
      (m : JsMap.t V) :
  P (k, v) -> Forall P m -> Forall P (JsMap.set k v m).
Proof.
  intros Hk. induction m as [|[k0 v0] r IH]; simpl; intros H.
  - auto.
  - inversion H; subst. destruct (String.eqb k0 k); auto.
Qed.

Lemma Forall_requeue (batch : list BatchFile) (q : JsMap.t PendingWrite) :
  Forall file_classified batch ->
  Forall entry_classified q ->
  Forall entry_classified (requeue batch q).
Proof.
  unfold requeue. revert q.
  induction batch as [|f r IH]; simpl; intros q Hb Hq; auto.
  inversion Hb; subst. apply IH; auto. apply Forall_set; auto.
Qed.

Lemma snapshot_classified (q : JsMap.t PendingWrite) :
  Forall entry_classified q -> Forall file_classified (snapshot q).
Proof.
  unfold snapshot, JsMap.entries. induction 1; simpl; constructor; auto.
Qed.

Lemma snapshot_paths (q : JsMap.t PendingWrite) :
  map path (snapshot q) = JsMap.keys q.
Proof.
  unfold snapshot, JsMap.entries, JsMap.keys. now rewrite map_map.
Qed.

Lemma truthy_form_value (o : option string) :
  JsString.truthy o = true -> form_value o <> "".
Proof.
  destruct o as [[|a s]|]; simpl; congruence.
Qed.

Lemma snapshot_nonempty (q : JsMap.t PendingWrite) :
  (JsMap.size q =? 0)%nat = false -> snapshot q <> [].
Proof.
  destruct q; discriminate.
Qed.

Lemma filesToSync_nonempty (fm : FileMap) :
  (0 <? List.length (filesToSync fm))%nat = true -> filesToSync fm <> [].
Proof.
  destruct (filesToSync fm); discriminate.
Qed.

Lemma fetch_wf_batch_write (f : Fetch) :
  fetch_wf f ->
  is_batch_write f = match cont f with
                     | ProcessK _ | SyncK _ => true
                     | _ => false
                     end.
Proof.
  unfold fetch_wf, is_batch_write. destruct (request f), (cont f); tauto.
Qed.

Ltac wf_finish :=
  repeat match goal with
         | H : _ /\ _ |- _ => destruct H
         end;
  subst;
  repeat match goal with
         | |- Forall _ (_ :: _) => constructor
         | |- _ /\ _ => split
         end;
  unfold fetch_wf, task_classified, entry_classified;
  cbn [request cont fst snd pw_isBinary pw_content load_pid];
  repeat match goal with
         | |- _ /\ _ => split
         end;
  auto using Forall_requeue, Forall_set, snapshot_classified,
    truthy_form_value, snapshot_nonempty, filesToSync_nonempty, Forall_nil;
  try (rewrite snapshot_paths; assumption);
  try (rewrite snapshot_paths; apply JsMapFacts.set_NoDup; assumption);
  try (apply snapshot_classified; apply Forall_set;
       [reflexivity|assumption]);
  try (apply Forall_set; [reflexivity|assumption]).

Section Traffic.

Variable super_writeFile : string -> string -> FileMap -> FileMap * option string.
Variable super_removeFile : string -> FileMap -> FileMap * option string.

Local Notation "'stepE'" := (step super_writeFile super_removeFile).
Local Notation "'reachableE'" := (reachable super_writeFile super_removeFile).

#[local] Arguments JsMap.set : simpl never.
#[local] Arguments JsMap.keys : simpl never.
#[local] Arguments requeue : simpl never.
#[local] Arguments snapshot : simpl never.
#[local] Arguments isFileBinary : simpl never.
#[local] Arguments filesToSync : simpl never.
#[local] Arguments form_value : simpl never.

Lemma step_wire_wf (w w' : World) (e : Event) :
  queue_wf w -> wire_wf w -> stepE w e = Some w' -> wire_wf w'.
Proof.
  intros Hq (Hf & He & Ht) Hstep. unfold wire_wf, queue_wf in *.
  destruct e; cbn [step] in Hstep.
  8: { destruct (nth_error (inflight w) i) as [f|] eqn:E; [|discriminate].
       injection Hstep as <-.
       pose proof (Forall_nth_error Hf E) as Hwf.
       pose proof (Forall_remove_nth i Hf) as Hrest.
       destruct f as [rq k]. unfold fetch_wf in Hwf. cbn [cont request] in *.
       destruct k; destruct rq; try contradiction; cbn [resume_fetch];
         run_method; wf_finish. }
  7: { destruct (nth_error (tasks w) i) as [t|] eqn:E; [|discriminate].
       injection Hstep as <-.
       pose proof (Forall_nth_error Ht E) as Hwf.
       pose proof (Forall_remove_nth i Ht) as Hrest.
       destruct t; cbn [resume_task]; run_method; wf_finish. }
  7: { destruct (existsb (Nat.eqb h) (intervals w)); [|discriminate].
       injection Hstep as <-. run_method; wf_finish. }
  7: { destruct (timeouts w) eqn:Hto; [discriminate|].
       injection Hstep as <-. run_method; wf_finish. }
  all: injection Hstep as <-; run_method; wf_finish.
Qed.

Lemma step_status_wf (w w' : World) (e : Event) :
  wire_wf w -> status_wf w -> stepE w e = Some w' -> status_wf w'.
Proof.
  intros (Hf & _ & _) Hs Hstep. unfold status_wf, batch_write_count in *.
  destruct e; cbn [step] in Hstep.
  8: { destruct (nth_error (inflight w) i) as [f|] eqn:E; [|discriminate].
       injection Hstep as <-.
       pose proof (@fetch_wf_batch_write f (Forall_nth_error Hf E)) as Hk.
       rewrite (filter_remove_nth is_batch_write _ _ E), Hk in Hs.
       destruct f as [rq k]. cbn [cont] in *.
       destruct k; cbn [resume_fetch]; run_method;
         try congruence; try lia; auto. }
  7: { destruct (nth_error (tasks w) i) as [t|] eqn:E; [|discriminate].
       injection Hstep as <-.
       destruct t; cbn [resume_task]; run_method;
         try congruence; try lia; auto;
         intros; try lia; try (apply le_S; auto). }
  7: { destruct (existsb (Nat.eqb h) (intervals w)); [|discriminate].
       injection Hstep as <-. run_method; try congruence; try lia; auto. }
  7: { destruct (timeouts w) eqn:Hto; [discriminate|].
       injection Hstep as <-. run_method; try congruence; try lia; auto. }
  all: injection Hstep as <-; run_method; try congruence; try lia; auto.
Qed.

Lemma reachable_traffic (w : World) :
  reachableE w -> wire_wf w /\ status_wf w.
Proof.
  intros Hreach.
  induction Hreach as [fm|w e w' Hreach (Hw & Hs) Hstep].
  - split.
    + repeat split; constructor.
    + unfold status_wf. cbn. discriminate.
  - destruct (reachable_invariants Hreach) as (_ & Hq & _).
    split.
    + eapply step_wire_wf; eauto.
    + eapply step_status_wf; eauto.
Qed.

End Traffic.

(** ** Timers, deletions, follow-ups and the explicit flush *)

Lemma requeue_nonempty (batch : list BatchFile) (q : JsMap.t PendingWrite) :
  batch <> [] -> requeue batch q <> [].
Proof.
  intros Hb H.
  destruct batch as [|f r]; [congruence|].
  assert (Hin : In f (f :: r)) by now left.
  assert (Hk : In (path f) (JsMap.keys (requeue (f :: r) q))).
  { clear H Hin Hb. unfold requeue. cbn [fold_left].
    assert (H0 : In (path f)
                    (JsMap.keys
                       (JsMap.set (path f)
                                  {| pw_content := content f;
                                     pw_isBinary := isBinary f |} q)))
      by (apply JsMapFacts.keys_set; now left).
    revert H0. generalize (JsMap.set (path f)
                                     {| pw_content := content f;
                                        pw_isBinary := isBinary f |} q).
    induction r as [|g r IH]; intros q0 H0; cbn [fold_left]; [exact H0|].
    apply IH. apply JsMapFacts.keys_set. now right. }
  rewrite H in Hk. contradiction.
Qed.

(** A drain sends the entry a path has in the queue. *)
Lemma snapshot_get (q : JsMap.t PendingWrite) (p : string) (e : PendingWrite) :
  JsMap.get p q = Some e ->
  In {| path := p; content := pw_content e; isBinary := pw_isBinary e |}
     (snapshot q).
Proof.
  intros H. apply snapshot_In. now apply JsMapFacts.get_In.
Qed.


Section Further.

Variable super_writeFile : string -> string -> FileMap -> FileMap * option string.
Variable super_removeFile : string -> FileMap -> FileMap * option string.

Local Notation "'stepE'" := (step super_writeFile super_removeFile).
Local Notation "'reachableE'" := (reachable super_writeFile super_removeFile).

#[local] Arguments JsMap.set : simpl never.
#[local] Arguments requeue : simpl never.
#[local] Arguments snapshot : simpl never.
#[local] Arguments isFileBinary : simpl never.
#[local] Arguments filesToSync : simpl never.
#[local] Arguments form_value : simpl never.

(** X1. Whatever sequence of [setProject] and [dispose] calls has run, at
    most one interval is live, and it is the one [#syncInterval] holds:
    no timer leaks across rebinds. *)
Theorem one_live_interval (w : World) :
  reachableE w ->
  intervals w = match syncInterval (store w) with
                | Some h => [h]
                | None => []
                end
  /\ List.length (intervals w) <= 1.
Proof.
  intros Hreach.
  destruct (reachable_invariants Hreach) as (_ & _ & Hlive & _).
  split; [exact Hlive|].
  rewrite Hlive. destruct (syncInterval (store w)); cbn; lia.
Qed.

(** X2. [dispose] stops the periodic tick and nothing else: the binding,
    the queue, the guard and the status stay, an outstanding request and
    a pending retry timer are not cancelled; a second [dispose] changes
    nothing. *)
Theorem dispose_only_stops_tick (w : World) :
  reachableE w ->
  let w' := dispose w in
  intervals w' = []
  /\ (forall h, stepE w' (Tick h) = None)
  /\ syncInterval (store w') = None
  /\ projectId (store w') = projectId (store w)
  /\ syncQueue (store w') = syncQueue (store w)
  /\ isSyncing (store w') = isSyncing (store w)
  /\ projectState (store w') = projectState (store w)
  /\ inflight w' = inflight w
  /\ timeouts w' = timeouts w
  /\ dispose w' = w'.
Proof.
  intros Hreach w'.
  destruct (reachable_invariants Hreach) as (_ & _ & Hlive & _).
  assert (Hiv : intervals w' = []).
  { subst w'. unfold dispose.
    destruct (syncInterval (store w)) as [h|]; cbn.
    - now rewrite Hlive, clearInterval_only.
    - exact Hlive. }
  assert (Hnone : syncInterval (store w') = None).
  { subst w'. unfold dispose.
    destruct (syncInterval (store w)) as [h|] eqn:E; cbn; auto. }
  split; [exact Hiv|]. split.
  { intros h. cbn [step]. now rewrite Hiv. }
  split; [exact Hnone|].
  repeat split;
    try (subst w'; unfold dispose;
         destruct (syncInterval (store w)); reflexivity).
  unfold dispose at 1. now rewrite Hnone.
Qed.

(** X3. With a project bound, [removeFile] posts one deletion for the
    bound project and the path, and does not touch the queue, the guard,
    the status or the retry timers: a write pending for the removed path
    stays in the queue. *)
Theorem removeFile_bypasses_queue (w : World) (i : nat) (filePath : string) :
  nth_error (tasks w) i = Some (RemoveSuper filePath) ->
  bound w = true ->
  snd (super_removeFile filePath (files (store w))) = None ->
  exists w',
    stepE w (Resume i) = Some w'
    /\ inflight w'
       = {| request := Delete (form_value (projectId (store w))) filePath;
            cont := RemoveK filePath |} :: inflight w
    /\ syncQueue (store w') = syncQueue (store w)
    /\ isSyncing (store w') = isSyncing (store w)
    /\ projectState (store w') = projectState (store w)
    /\ timeouts w' = timeouts w
    /\ settled w' = settled w.
Proof.
  intros Ht Hb Hok. eexists. cbn [step]. rewrite Ht.
  split; [reflexivity|]. cbn [resume_task]. unfold removeFile_resume.
  destruct (super_removeFile filePath _) as [fm err] eqn:E.
  cbn in Hok. subst err. unfold bound in *. cbn. rewrite Hb. cbn.
  repeat split.
Qed.

(** X4. The answer to a deletion is not inspected: whatever it is, the
    promise of [removeFile] is fulfilled, the store is as before and
    nothing is retried; a rejected [fetch] leaves one log entry, a status
    that is not [ok] leaves none. *)
Theorem removeFile_swallows_sync_failure
        (w : World) (i : nat) (rq : Request) (filePath : string)
        (r : Response) :
  nth_error (inflight w) i = Some {| request := rq; cont := RemoveK filePath |} ->
  exists w',
    stepE w (Respond i r) = Some w'
    /\ settled w' = (CRemoveFile filePath, Fulfilled) :: settled w
    /\ log w' = match r with
                | Rejected _ => ErrSyncDeletion filePath :: log w
                | Resolved _ _ => log w
                end
    /\ store w' = store w
    /\ inflight w' = remove_nth i (inflight w)
    /\ timeouts w' = timeouts w.
Proof.
  intros Hf. eexists. cbn [step]. rewrite Hf.
  split; [reflexivity|]. cbn [cont resume_fetch]. unfold removeFile_settled.
  destruct r; cbn; repeat split.
Qed.

(** X5. When a transmission of the queue succeeds, the status gets the
    time of the answer, and the writes that arrived in the meantime are
    neither lost nor sent twice: they stay queued, one retry timer is set
    for them (none when there are none), and when it fires with the
    project still bound, they make up the next batch. *)
Theorem success_then_follow_up
        (w : World) (i : nat) (rq : Request) (batch : list BatchFile)
        (body : Body) :
  nth_error (inflight w) i = Some {| request := rq; cont := ProcessK batch |} ->
  exists w1,
    stepE w (Respond i (Resolved true body)) = Some w1
    /\ syncQueue (store w1) = syncQueue (store w)
    /\ projectState (store w1) = synced_at (now w) (projectState (store w))
    /\ isSyncing (store w1) = false
    /\ log w1 = log w
    /\ inflight w1 = remove_nth i (inflight w)
    /\ timeouts w1 = (if (0 <? JsMap.size (syncQueue (store w)))%nat
                      then S (timeouts w) else timeouts w)
    /\ (syncQueue (store w) <> [] ->
        bound w = true ->
        exists w2,
          stepE w1 Timeout = Some w2
          /\ inflight w2
             = {| request := BatchWrite (form_value (projectId (store w)))
                                        (snapshot (syncQueue (store w)));
                  cont := ProcessK (snapshot (syncQueue (store w))) |}
                 :: remove_nth i (inflight w)
          /\ syncQueue (store w2) = []
          /\ timeouts w2 = timeouts w).
Proof.
  intros Hf. eexists. cbn [step]. rewrite Hf.
  split; [reflexivity|]. cbn [cont resume_fetch].
  unfold processSyncQueue_resume, processSyncQueue_finally.
  destruct (syncQueue (store w)) as [|e q] eqn:Eq.
  - cbn. rewrite Eq. cbn. rewrite Eq. repeat split. congruence.
  - cbn. rewrite Eq. cbn. rewrite Eq. repeat split.
    intros _ Hb. eexists. split; [reflexivity|].
    rewrite processSyncQueue_drain.
    + cbn. rewrite Eq. repeat split.
    + reflexivity.
    + cbn. rewrite Eq. discriminate.
    + unfold bound in *. cbn. exact Hb.
Qed.

(** X6. When a transmission of the queue is answered with a status that
    is not [ok] and the project is still bound, the retry timer sends
    every file of the failed batch again, together with the pending
    writes to other paths. *)
Theorem failed_batch_is_retried
        (w : World) (i : nat) (rq : Request) (batch : list BatchFile)
        (body : Body) :
  reachableE w ->
  nth_error (inflight w) i = Some {| request := rq; cont := ProcessK batch |} ->
  bound w = true ->
  exists w1 w2 retry,
    stepE w (Respond i (Resolved false body)) = Some w1
    /\ timeouts w1 = S (timeouts w)
    /\ stepE w1 Timeout = Some w2
    /\ inflight w2
       = {| request := BatchWrite (form_value (projectId (store w))) retry;
            cont := ProcessK retry |} :: remove_nth i (inflight w)
    /\ (forall f, In f batch -> In f retry)
    /\ (forall p e,
           JsMap.get p (syncQueue (store w)) = Some e ->
           ~ In p (map path batch) ->
           In {| path := p; content := pw_content e;
                 isBinary := pw_isBinary e |} retry)
    /\ syncQueue (store w2) = [].
Proof.
  intros Hreach Hf Hb.
  destruct (reachable_traffic Hreach) as ((Hwire & _ & _) & _).
  pose proof (Forall_nth_error Hwire Hf) as Hwf.
  unfold fetch_wf in Hwf. cbn [request cont] in Hwf.
  destruct rq as [pid batch0| | |]; try contradiction.
  destruct Hwf as (-> & _ & Hne & Hnd & _).
  remember (requeue batch0 (syncQueue (store w))) as q eqn:Eq.
  assert (Hq : q <> []) by (subst q; now apply requeue_nonempty).
  assert (Hlisted : forall f, In f batch0 -> In f (snapshot q)).
  { intros f Hin.
    pose proof (@requeue_get_listed batch0 f (syncQueue (store w)) Hnd Hin)
      as Hg.
    rewrite <- Eq in Hg. apply snapshot_get in Hg. now destruct f. }
  assert (Hother : forall p e,
             JsMap.get p (syncQueue (store w)) = Some e ->
             ~ In p (map path batch0) ->
             In {| path := p; content := pw_content e;
                   isBinary := pw_isBinary e |} (snapshot q)).
  { intros p e Hg Hnin.
    rewrite <- (@requeue_get_other batch0 (syncQueue (store w)) p Hnin) in Hg.
    rewrite <- Eq in Hg. now apply snapshot_get. }
  exists (processSyncQueue_resume
            batch0 (Resolved false body)
            (set_inflight (remove_nth i (inflight w)) w)).
  eexists. exists (snapshot q).
  cbn [step]. rewrite Hf. cbn [cont resume_fetch].
  split; [reflexivity|].
  unfold processSyncQueue_resume, processSyncQueue_catch,
    processSyncQueue_finally.
  cbn. rewrite <- Eq.
  destruct q as [|e0 q0]; [congruence|]. cbn.
  split; [reflexivity|]. split; [reflexivity|].
  rewrite processSyncQueue_drain.
  - cbn. rewrite <- Eq. split; [reflexivity|].
    split; [exact Hlisted|]. split; [exact Hother|reflexivity].
  - reflexivity.
  - cbn. rewrite <- Eq. discriminate.
  - unfold bound in *. cbn. exact Hb.
Qed.

(** X7. In every reachable state each entry of the queue, and each file
    of a batch the queue has in flight, carries the flag [isFileBinary]
    gives its path and content: a requeue never changes a flag. *)
Theorem flags_follow_isFileBinary (w : World) :
  reachableE w ->
  (forall p e,
      In (p, e) (syncQueue (store w)) ->
      pw_isBinary e = isFileBinary p (pw_content e))
  /\ (forall rq batch f,
         In {| request := rq; cont := ProcessK batch |} (inflight w) ->
         In f batch ->
         isBinary f = isFileBinary (path f) (content f)).
Proof.
  intros Hreach.
  destruct (reachable_traffic Hreach) as ((Hwire & Hqueue & _) & _).
  rewrite Forall_forall in Hwire, Hqueue. split.
  - intros p e Hin. exact (Hqueue (p, e) Hin).
  - intros rq batch f Hin Hf.
    specialize (Hwire _ Hin). unfold fetch_wf in Hwire.
    cbn [request cont] in Hwire.
    destruct rq; try contradiction.
    destruct Hwire as (-> & _ & _ & _ & Hall).
    rewrite Forall_forall in Hall. now apply Hall.
Qed.

(** X8. No request the engine has outstanding is malformed: a batch is
    never empty, a batch or a deletion always names a project, and a
    batch of the queue is the snapshot its method keeps and lists no path
    twice. *)
Theorem no_malformed_request (w : World) (f : Fetch) :
  reachableE w ->
  In f (inflight w) ->
  (forall pid batch,
      request f = BatchWrite pid batch -> pid <> "" /\ batch <> [])
  /\ (forall pid filePath, request f = Delete pid filePath -> pid <> "")
  /\ (forall batch,
         cont f = ProcessK batch ->
         exists pid,
           request f = BatchWrite pid batch /\ NoDup (map path batch)).
Proof.
  intros Hreach Hin.
  destruct (reachable_traffic Hreach) as ((Hwire & _ & _) & _).
  rewrite Forall_forall in Hwire. specialize (Hwire _ Hin).
  unfold fetch_wf in Hwire. destruct f as [rq k]. cbn [request cont] in *.
  split; [|split].
  - intros pid batch ->. destruct k; try contradiction; tauto.
  - intros pid filePath ->. destruct k; try contradiction; tauto.
  - intros batch ->. destruct rq; try contradiction.
    destruct Hwire as (-> & _ & _ & Hnd & _). eauto.
Qed.

(** X9. The observable flag is never stuck: whenever [syncing] is true, a
    batch transmission is outstanding. *)
Theorem syncing_implies_outstanding (w : World) :
  reachableE w ->
  syncing (projectState (store w)) = true ->
  1 <= batch_write_count w.
Proof.
  intros Hreach. destruct (reachable_traffic Hreach) as (_ & Hs). exact Hs.
Qed.

End Further.

(** ** The explicit flush and the initial load, continued *)

(** The flush lists the files of the virtual filesystem and nothing
    else: folders and keys that hold [undefined] are skipped. *)
Lemma filesToSync_spec (fm : FileMap) (f : BatchFile) :
  In f (filesToSync fm)
  <-> In (path f, Some (File (content f) (isBinary f))) fm.
Proof.
  unfold filesToSync. rewrite in_flat_map. split.
  - intros ([k [[c b|]|]] & Hin & Hf); cbn in Hf; try contradiction.
    destruct Hf as [<-|[]]. exact Hin.
  - intros Hin. eexists. split; [exact Hin|]. cbn. left. now destruct f.
Qed.

Section FlushAndLoad.

Variable super_writeFile : string -> string -> FileMap -> FileMap * option string.
Variable super_removeFile : string -> FileMap -> FileMap * option string.

Local Notation "'stepE'" := (step super_writeFile super_removeFile).

#[local] Arguments JsMap.set : simpl never.
#[local] Arguments snapshot : simpl never.
#[local] Arguments isFileBinary : simpl never.
#[local] Arguments filesToSync : simpl never.
#[local] Arguments form_value : simpl never.

(** X10. With a project bound, [syncToProject] sends the files of the
    virtual filesystem, all of them and nothing else, in one batch for
    the bound project; with no file it sends nothing and reports success
    at once, with the time of the call.  Either way it leaves the queue
    and its guard alone, so what is pending there is sent again by the
    next drain. *)
Theorem flush_sends_the_files (w : World) :
  bound w = true ->
  let batch := filesToSync (files (store w)) in
  let w' := syncToProject w in
  (forall f,
      In f batch
      <-> In (path f, Some (File (content f) (isBinary f))) (files (store w)))
  /\ syncQueue (store w') = syncQueue (store w)
  /\ isSyncing (store w') = isSyncing (store w)
  /\ files (store w') = files (store w)
  /\ timeouts w' = timeouts w
  /\ (batch <> [] ->
      inflight w'
      = {| request := BatchWrite (form_value (projectId (store w))) batch;
           cont := SyncK (List.length batch) |} :: inflight w
      /\ settled w' = settled w
      /\ syncing (projectState (store w')) = true)
  /\ (batch = [] ->
      inflight w' = inflight w
      /\ settled w' = (CSyncToProject, Fulfilled) :: settled w
      /\ projectState (store w')
         = synced_at (now w) (projectState (store w))).
Proof.
  intros Hb batch w'. split; [intro f; apply filesToSync_spec|].
  subst w'. unfold syncToProject. rewrite Hb. cbn.
  fold batch. destruct batch as [|f r]; cbn; repeat split; congruence.
Qed.

(** X11. When the listing request of [loadProjectFiles] is rejected, or
    answered with a status that is not [ok], or with a body that is not
    JSON or has no [files], the load is rejected after one log entry: no
    file is requested, and the store is as before.  For a status that is
    not [ok], the reason is the [error] of the body when it has one. *)
Theorem unusable_listing_rejects_load (w : World) (pid : string) (r : Response) :
  usable_listing r = None ->
  exists w' reason,
    run super_writeFile super_removeFile
        [CallLoadProjectFiles pid; Respond 0 r] w = Some w'
    /\ settled w' = (CLoadProjectFiles pid, Thrown reason) :: settled w
    /\ log w' = ErrLoad :: log w
    /\ store w' = store w
    /\ inflight w' = inflight w
    /\ tasks w' = tasks w
    /\ (forall body data message,
           r = Resolved false body ->
           body_json body = Some data ->
           data_error data = Some message ->
           message <> "" ->
           reason = message).
Proof.
  intros Hu. cbn [run].
  change (stepE w (CallLoadProjectFiles pid))
    with (Some (fetch (ListFiles pid) (LoadListK pid) w)).
  cbv iota beta. rewrite respond_newest.
  cbn [resume_fetch]. unfold loadProjectFiles_listed, loadProjectFiles_catch.
  destruct r as [ok body|reason].
  - destruct (body_json body) as [data|] eqn:Ej.
    + destruct ok.
      * cbn in Hu. rewrite Ej in Hu. rewrite Hu. cbn.
        do 2 eexists. repeat split. intros; discriminate.
      * cbn. do 2 eexists. split; [reflexivity|]. cbn. repeat split.
        intros body' data' message [= <-] Ej' He Hne.
        rewrite Ej in Ej'. injection Ej' as <-. rewrite He.
        destruct message; [congruence|reflexivity].
    + do 2 eexists. split; [reflexivity|]. cbn. repeat split.
      intros body' data' message [= _ <-] Ej'. congruence.
  - do 2 eexists. split; [reflexivity|]. cbn. repeat split.
    intros; discriminate.
Qed.


End FlushAndLoad.

(** * The route that receives the batches *)

Module FilesRouteFacts.
Import FilesRoute.

Lemma endsWith_split (s suffix : string) :
  endsWith s suffix = true ->
  s = (JsString.take (String.length s - String.length suffix) s ++ suffix)%string.
Proof.
  unfold endsWith. intros H. apply andb_prop in H. destruct H as [_ H].
  apply String.eqb_eq in H.
  pose proof (JsStringFacts.take_drop
                (String.length s - String.length suffix) s) as Htd.
  rewrite H in Htd. now symmetry.
Qed.

Lemma length_append (s t : string) :
  String.length (s ++ t)%string = String.length s + String.length t.
Proof.
  induction s as [|a r IH]; simpl; [reflexivity|now rewrite IH].
Qed.

Lemma endsWith_append (c x : string) : endsWith (c ++ x)%string x = true.
Proof.
  unfold endsWith. rewrite length_append.
  replace (String.length c + String.length x - String.length x)
    with (String.length c) by lia.
  rewrite JsStringFacts.drop_app_length, String.eqb_refl.
  rewrite andb_true_r. apply Nat.leb_le. lia.
Qed.

(** Of two ends of one string, the shorter is an end of the longer. *)
Lemma ends_comparable (a x b y : string) :
  (a ++ x)%string = (b ++ y)%string ->
  String.length x <= String.length y ->
  endsWith y x = true.
Proof.
  revert b. induction a as [|h a IH]; intros b E Hlen.
  - cbn [append] in E. subst x. rewrite length_append in Hlen.
    destruct b as [|h b]; [|cbn [String.length] in Hlen; lia].
    apply (endsWith_append EmptyString).
  - destruct b as [|h' b].
    + cbn [append] in E. subst y. apply (endsWith_append (String h a)).
    + cbn [append] in E. injection E as _ E. now apply (IH b).
Qed.

(** No extension of the loader's list ends in one of the engine's list,
    nor the other way round. *)
Lemma lists_apart :
  forallb (fun b =>
             forallb (fun e => negb (endsWith b (String "."%char e))
                               && negb (endsWith (String "."%char e) b))
                     textExtensions)
          binaryExtensions
  = true.
Proof. vm_compute. reflexivity. Qed.

Lemma text_extension_not_binary (b e : string) :
  In b binaryExtensions ->
  In e textExtensions ->
  endsWith b (String "."%char e) = false
  /\ endsWith (String "."%char e) b = false.
Proof.
  intros Hb He.
  pose proof lists_apart as H. rewrite forallb_forall in H.
  specialize (H b Hb). rewrite forallb_forall in H. specialize (H e He).
  apply andb_true_iff in H. destruct H as [H1 H2].
  now apply negb_true_iff in H1, H2.
Qed.

(** Both what the loader matches and what the engine cuts off are ends
    of the lower-cased path, wherever the cut falls. *)
Lemma isTextFile_extension (filePath : string) :
  isTextFile filePath = true ->
  array_includes binaryExtensions (extension_of filePath) = false.
Proof.
  unfold isTextFile. rewrite existsb_exists.
  intros (e & He & Hend).
  destruct (array_includes binaryExtensions (extension_of filePath)) eqn:Hb;
    [exfalso|reflexivity].
  apply extension_matches_sound in Hb. destruct Hb as (stem & b & Hb & Hl).
  apply endsWith_split in Hend. rewrite Hl in Hend at 1.
  destruct (@text_extension_not_binary b e Hb He) as (H1 & H2).
  destruct (Nat.le_ge_cases (String.length b)
                            (String.length (String "."%char e))) as [Hle|Hge].
  - pose proof (ends_comparable _ _ _ _ Hend Hle) as H. congruence.
  - pose proof (ends_comparable _ _ _ _ (eq_sym Hend) Hge) as H. congruence.
Qed.

Section Facts.

Variable Buffer : Type.
Variable Disk : Type.
Variable utf8 : string -> Buffer.
Variable base64 : string -> Buffer.
Variable storage_writeFile :
  string -> string -> Buffer -> Disk -> Disk * option string.
Variable storage_deleteFile : string -> string -> Disk -> Disk * option string.
Variable storage_readFile : string -> string -> Disk -> Buffer + string.
Variable storage_listFiles : string -> Disk -> list string + string.

Local Notation "'actionE'" :=
  (action utf8 base64 storage_writeFile storage_deleteFile).
Local Notation "'write_allE'" := (write_all utf8 base64 storage_writeFile).
Local Notation "'write_entryE'" := (write_entry utf8 base64 storage_writeFile).
Local Notation "'loaderE'" := (loader storage_readFile storage_listFiles).

(** The loop goes through a list in two parts: the second part is
    reached only if no write of the first was rejected. *)
Lemma write_all_app (pid : string) (pre rest : list Entry) (d : Disk) :
  write_allE pid (pre ++ rest) d
  = match write_allE pid pre d with
    | (d1, None) => write_allE pid rest d1
    | (d1, Some message) => (d1, Some message)
    end.
Proof.
  revert d. induction pre as [|file pre IH]; intros d; cbn [app write_all].
  - reflexivity.
  - destruct (write_entryE pid file d) as [d1 [message|]]; [reflexivity|].
    apply IH.
Qed.

Lemma write_all_accepted (pid : string) (batch : list BatchFile) (d d1 : Disk) :
  write_allE pid (map entry_of batch) d = (d1, None) ->
  d1 = store_all utf8 base64 storage_writeFile pid batch d.
Proof.
  revert d. unfold store_all.
  induction batch as [|f r IH]; intros d; cbn [map write_all fold_left].
  - now intros [= <-].
  - unfold write_entry. cbn [entry_of entry_content entry_path entry_isBinary].
    destruct (storage_writeFile pid (path f) _ d) as [d2 [message|]] eqn:E;
      [discriminate|].
    cbn [fst]. apply IH.
Qed.

(** X13. A batch is not written atomically: when the storage rejects the
    write of one file, the request is answered 500 with the message of
    that error, the files before it have been written, and the files
    after it are not attempted. *)
Theorem batch_write_is_not_atomic
        (formData : Form) (pre post : list Entry) (file : Entry)
        (d d1 d2 : Disk) (message : string) :
  JsString.truthy (form_projectId formData) = true ->
  form_action formData = Some "batch-write" ->
  form_files formData = Some (Files (pre ++ file :: post)) ->
  write_allE (form_value (form_projectId formData)) pre d = (d1, None) ->
  write_entryE (form_value (form_projectId formData)) file d1
  = (d2, Some message) ->
  actionE true formData d
  = ({| status := 500; payload := ErrorJson message |}, d2).
Proof.
  intros Hp Ha Hf Hpre Hfile. unfold action.
  rewrite Hp, Ha, Hf. cbn [negb].
  change (String.eqb "batch-write" "write") with false.
  change (String.eqb "batch-write" "delete") with false.
  change (String.eqb "batch-write" "batch-write") with true.
  cbv iota. rewrite write_all_app, Hpre. cbn [write_all]. rewrite Hfile.
  reflexivity.
Qed.

(** X14. A request the action answers with a status other than 200 and
    500 has not changed the storage; and the action answers with no
    status but 200, 400, 500 and 503. *)
Theorem refused_request_leaves_storage
        (isNodeEnvironment : bool) (formData : Form) (d : Disk) :
  let result := actionE isNodeEnvironment formData d in
  (status (fst result) = 200 \/ status (fst result) = 400
   \/ status (fst result) = 500 \/ status (fst result) = 503)
  /\ (status (fst result) <> 200 ->
      status (fst result) <> 500 ->
      snd result = d).
Proof.
  unfold action.
  destruct isNodeEnvironment; cbn [negb]; [|cbn; split; [auto|reflexivity]].
  destruct (JsString.truthy (form_projectId formData)); cbn [negb];
    [|cbn; split; [auto|reflexivity]].
  destruct (form_action formData) as [name|];
    [|cbn; split; [auto|reflexivity]].
  destruct (String.eqb name "write").
  { destruct (JsString.truthy (form_path formData)); cbn [negb];
      [|cbn; split; [auto|reflexivity]].
    destruct (form_content formData) as [content|];
      [|cbn; split; [auto|reflexivity]].
    cbv zeta.
    destruct (storage_writeFile _ _ _ d) as [d1 [message|]]; cbn;
      (split; [auto|congruence]). }
  destruct (String.eqb name "delete").
  { destruct (JsString.truthy (form_path formData)); cbn [negb];
      [|cbn; split; [auto|reflexivity]].
    destruct (storage_deleteFile _ _ d) as [d1 [message|]]; cbn;
      (split; [auto|congruence]). }
  destruct (String.eqb name "batch-write");
    [|cbn; split; [auto|reflexivity]].
  destruct (form_files formData) as [[message|files]|];
    try (cbn; split; [auto|reflexivity]).
  destruct (write_allE _ files d) as [d1 [message|]]; cbn;
    (split; [auto|congruence]).
Qed.

(** X15. A batch the engine has outstanding is one the route accepts: it
    is never refused with 400; the files go to the storage in the order
    of the batch, for the project of the request, a file flagged binary
    decoded as base64 and any other as UTF-8; the answer is 200 with the
    number of files when every write is accepted, and 500 with the
    message of the first rejected write otherwise. *)
Theorem engine_batch_is_accepted
        (super_writeFile : string -> string -> FileMap -> FileMap * option string)
        (super_removeFile : string -> FileMap -> FileMap * option string)
        (w : World) (f : Fetch) (pid : string) (batch : list BatchFile)
        (d : Disk) :
  reachable super_writeFile super_removeFile w ->
  In f (inflight w) ->
  request f = BatchWrite pid batch ->
  no_line_break pid = true ->
  let result := actionE true (batch_form pid batch) d in
  let written := write_allE pid (map entry_of batch) d in
  snd result = fst written
  /\ fst result
     = match snd written with
       | None => {| status := 200;
                    payload := SuccessJson (Some (List.length batch)) |}
       | Some message => {| status := 500; payload := ErrorJson message |}
       end
  /\ status (fst result) <> 400
  /\ (snd written = None ->
      snd result = store_all utf8 base64 storage_writeFile pid batch d).
Proof.
  clear storage_readFile storage_listFiles.
  intros Hreach Hin Hrq _ result written.
  destruct (reachable_traffic Hreach) as ((Hwire & _ & _) & _).
  rewrite Forall_forall in Hwire. specialize (Hwire _ Hin).
  unfold fetch_wf in Hwire. rewrite Hrq in Hwire.
  assert (Hpid : pid <> "") by (destruct (cont f); tauto).
  assert (Ht : JsString.truthy (Some pid) = true)
    by (destruct pid; [congruence|reflexivity]).
  assert (Hres : result
                 = match written with
                   | (d1, None) =>
                       ({| status := 200;
                           payload := SuccessJson (Some (List.length batch)) |},
                        d1)
                   | (d1, Some message) =>
                       ({| status := 500; payload := ErrorJson message |}, d1)
                   end).
  { subst result written. unfold action, batch_form.
    cbn [form_projectId form_action form_files negb]. rewrite Ht. cbn [negb].
    change (String.eqb "batch-write" "write") with false.
    change (String.eqb "batch-write" "delete") with false.
    change (String.eqb "batch-write" "batch-write") with true.
    cbv iota. cbn [form_value].
    destruct (write_allE pid (map entry_of batch) d) as [d1 [message|]];
      [reflexivity|].
    now rewrite length_map. }
  rewrite Hres. destruct written as [d1 [message|]] eqn:E; cbn.
  - repeat split; congruence.
  - repeat split; try congruence.
    intros _. now apply write_all_accepted.
Qed.

(** X16. A file the loader serves as text is one the engine does not
    take for binary by its name: when the content type is [text/plain],
    the extension of the path is not in the engine's list, and
    [isFileBinary] is decided by the null bytes of the content alone. *)
Theorem text_files_are_not_binary_by_name
        (projectId : option string) (filePath : string) (d : Disk)
        (content : Buffer) :
  payload (loaderE true projectId (Some filePath) d)
  = Content content "text/plain; charset=utf-8" ->
  array_includes binaryExtensions (extension_of filePath) = false
  /\ forall text, isFileBinary filePath text = JsString.includes zero text.
Proof.
  unfold loader. cbn [negb].
  destruct (JsString.truthy projectId); cbn [negb]; [|discriminate].
  destruct (JsString.truthy (Some filePath)) eqn:Hp.
  - cbn [form_value].
    destruct (storage_readFile _ filePath d) as [buffer|message];
      [|discriminate].
    destruct (isTextFile filePath) eqn:Ht; cbn; [|discriminate].
    intros _. pose proof (isTextFile_extension filePath Ht) as Hn.
    split; [exact Hn|]. intros text. unfold isFileBinary. now rewrite Hn.
  - destruct (storage_listFiles _ d); discriminate.
Qed.

End Facts.

End FilesRouteFacts.

(** * The further properties at concrete worlds *)

Lemma pending_world_reachable : reachable vfs_write vfs_remove pending_world.
Proof.
  apply world_after_reachable. discriminate.
Qed.

Lemma one_live_interval_witness :
  reachable vfs_write vfs_remove (world_after rebind_trace)
  /\ intervals (world_after rebind_trace)
     = match syncInterval (store (world_after rebind_trace)) with
       | Some h => [h]
       | None => []
       end
  /\ List.length (intervals (world_after rebind_trace)) <= 1.
Proof.
  assert (H : reachable vfs_write vfs_remove (world_after rebind_trace))
    by (apply world_after_reachable; discriminate).
  split; [exact H|].
  exact (@one_live_interval vfs_write vfs_remove _ H).
Defined.

Lemma dispose_only_stops_tick_witness :
  reachable vfs_write vfs_remove pending_world
  /\ intervals (dispose pending_world) = []
  /\ (forall h, step vfs_write vfs_remove (dispose pending_world) (Tick h)
                = None)
  /\ timeouts (dispose pending_world) = timeouts pending_world
  /\ inflight (dispose pending_world) = inflight pending_world.
Proof.
  pose proof (@dispose_only_stops_tick vfs_write vfs_remove pending_world
                                       pending_world_reachable) as T.
  cbv zeta in T.
  destruct T as (T1 & T2 & _ & _ & _ & _ & _ & T8 & T9 & _).
  split; [exact pending_world_reachable|].
  split; [exact T1|]. split; [exact T2|]. split; [exact T9|exact T8].
Defined.

Lemma removeFile_bypasses_queue_witness :
  nth_error (tasks removing_world) 0 = Some (RemoveSuper "/b.txt")
  /\ bound removing_world = true
  /\ snd (vfs_remove "/b.txt" (files (store removing_world))) = None
  /\ JsMap.get "/b.txt" (syncQueue (store removing_world))
     = Some {| pw_content := "2"; pw_isBinary := false |}
  /\ exists w',
      step vfs_write vfs_remove removing_world (Resume 0) = Some w'
      /\ inflight w'
         = {| request := Delete (form_value (projectId (store removing_world)))
                                "/b.txt";
              cont := RemoveK "/b.txt" |} :: inflight removing_world
      /\ syncQueue (store w') = syncQueue (store removing_world)
      /\ isSyncing (store w') = isSyncing (store removing_world)
      /\ projectState (store w') = projectState (store removing_world)
      /\ timeouts w' = timeouts removing_world
      /\ settled w' = settled removing_world.
Proof.
  assert (H1 : nth_error (tasks removing_world) 0 = Some (RemoveSuper "/b.txt"))
    by (vm_compute; reflexivity).
  assert (H2 : bound removing_world = true) by (vm_compute; reflexivity).
  assert (H3 : snd (vfs_remove "/b.txt" (files (store removing_world))) = None)
    by reflexivity.
  split; [exact H1|]. split; [exact H2|]. split; [exact H3|].
  split; [vm_compute; reflexivity|].
  exact (@removeFile_bypasses_queue vfs_write vfs_remove removing_world 0
                                    "/b.txt" H1 H2 H3).
Defined.

Lemma removeFile_swallows_sync_failure_witness :
  nth_error (inflight deleting_world) 0
  = Some {| request := Delete "A" "/b.txt"; cont := RemoveK "/b.txt" |}
  /\ exists w',
      step vfs_write vfs_remove deleting_world (Respond 0 answer_not_ok)
      = Some w'
      /\ settled w' = (CRemoveFile "/b.txt", Fulfilled) :: settled deleting_world
      /\ log w' = match answer_not_ok with
                  | Rejected _ => ErrSyncDeletion "/b.txt" :: log deleting_world
                  | Resolved _ _ => log deleting_world
                  end
      /\ store w' = store deleting_world
      /\ inflight w' = remove_nth 0 (inflight deleting_world)
      /\ timeouts w' = timeouts deleting_world.
Proof.
  assert (H1 : nth_error (inflight deleting_world) 0
               = Some {| request := Delete "A" "/b.txt";
                         cont := RemoveK "/b.txt" |})
    by (vm_compute; reflexivity).
  split; [exact H1|].
  exact (@removeFile_swallows_sync_failure
           vfs_write vfs_remove deleting_world 0 _ "/b.txt" answer_not_ok H1).
Defined.

Lemma pending_world_inflight :
  nth_error (inflight pending_world) 0
  = Some {| request := BatchWrite "A" [{| path := "/a.txt"; content := "1";
                                         isBinary := false |}];
            cont := ProcessK [{| path := "/a.txt"; content := "1";
                                 isBinary := false |}] |}.
Proof.
  vm_compute. reflexivity.
Qed.

Lemma success_then_follow_up_witness :
  nth_error (inflight pending_world) 0
  = Some {| request := BatchWrite "A" [{| path := "/a.txt"; content := "1";
                                         isBinary := false |}];
            cont := ProcessK [{| path := "/a.txt"; content := "1";
                                 isBinary := false |}] |}
  /\ syncQueue (store pending_world) <> []
  /\ bound pending_world = true
  /\ exists w1 w2,
      step vfs_write vfs_remove pending_world (Respond 0 answer_ok) = Some w1
      /\ step vfs_write vfs_remove w1 Timeout = Some w2
      /\ inflight w2
         = {| request := BatchWrite
                           (form_value (projectId (store pending_world)))
                           (snapshot (syncQueue (store pending_world)));
              cont := ProcessK (snapshot (syncQueue (store pending_world))) |}
             :: remove_nth 0 (inflight pending_world)
      /\ syncQueue (store w2) = [].
Proof.
  assert (H2 : syncQueue (store pending_world) <> [])
    by (vm_compute; discriminate).
  assert (H3 : bound pending_world = true) by (vm_compute; reflexivity).
  split; [exact pending_world_inflight|]. split; [exact H2|].
  split; [exact H3|].
  destruct (@success_then_follow_up vfs_write vfs_remove pending_world 0 _ _
                                    empty_body pending_world_inflight)
    as (w1 & S1 & _ & _ & _ & _ & _ & _ & Sfollow).
  destruct (Sfollow H2 H3) as (w2 & S2 & S3 & S4 & _).
  exists w1, w2. split; [exact S1|]. split; [exact S2|].
  split; [exact S3|exact S4].
Defined.

Lemma failed_batch_is_retried_witness :
  reachable vfs_write vfs_remove pending_world
  /\ bound pending_world = true
  /\ exists w1 w2 retry,
      step vfs_write vfs_remove pending_world (Respond 0 answer_not_ok)
      = Some w1
      /\ step vfs_write vfs_remove w1 Timeout = Some w2
      /\ inflight w2
         = {| request := BatchWrite
                           (form_value (projectId (store pending_world)))
                           retry;
              cont := ProcessK retry |}
             :: remove_nth 0 (inflight pending_world)
      /\ In {| path := "/a.txt"; content := "1"; isBinary := false |} retry.
Proof.
  assert (H3 : bound pending_world = true) by (vm_compute; reflexivity).
  split; [exact pending_world_reachable|]. split; [exact H3|].
  destruct (@failed_batch_is_retried vfs_write vfs_remove pending_world 0 _ _
                                     empty_body pending_world_reachable
                                     pending_world_inflight H3)
    as (w1 & w2 & retry & R1 & _ & R2 & R3 & R4 & _).
  exists w1, w2, retry. split; [exact R1|]. split; [exact R2|].
  split; [exact R3|]. apply R4. now left.
Defined.

Lemma flags_follow_isFileBinary_witness :
  reachable vfs_write vfs_remove pending_world
  /\ forall p e,
      In (p, e) (syncQueue (store pending_world)) ->
      pw_isBinary e = isFileBinary p (pw_content e).
Proof.
  split; [exact pending_world_reachable|].
  exact (proj1 (@flags_follow_isFileBinary vfs_write vfs_remove pending_world
                                           pending_world_reachable)).
Defined.

Lemma overlap_world_reachable :
  reachable vfs_write vfs_remove (world_after overlap_trace).
Proof.
  apply world_after_reachable. discriminate.
Qed.

Lemma overlap_world_newest :
  In {| request := BatchWrite "A" [{| path := "/a.txt"; content := "1";
                                      isBinary := false |}];
        cont := SyncK 1 |}
     (inflight (world_after overlap_trace)).
Proof.
  vm_compute. now left.
Qed.

Lemma no_malformed_request_witness :
  reachable vfs_write vfs_remove (world_after overlap_trace)
  /\ In {| request := BatchWrite "A" [{| path := "/a.txt"; content := "1";
                                         isBinary := false |}];
           cont := SyncK 1 |}
        (inflight (world_after overlap_trace))
  /\ "A" <> ""
  /\ [{| path := "/a.txt"; content := "1"; isBinary := false |}] <> [].
Proof.
  split; [exact overlap_world_reachable|].
  split; [exact overlap_world_newest|].
  exact (proj1 (@no_malformed_request vfs_write vfs_remove _ _
                                      overlap_world_reachable
                                      overlap_world_newest)
               "A" _ eq_refl).
Defined.

Lemma syncing_implies_outstanding_witness :
  reachable vfs_write vfs_remove (world_after overlap_trace)
  /\ syncing (projectState (store (world_after overlap_trace))) = true
  /\ 1 <= batch_write_count (world_after overlap_trace).
Proof.
  assert (H : syncing (projectState (store (world_after overlap_trace))) = true)
    by (vm_compute; reflexivity).
  split; [exact overlap_world_reachable|]. split; [exact H|].
  exact (@syncing_implies_outstanding vfs_write vfs_remove _
                                      overlap_world_reachable H).
Defined.

Lemma flush_sends_the_files_witness :
  bound busy_world = true
  /\ filesToSync (files (store busy_world)) <> []
  /\ inflight (syncToProject busy_world)
     = {| request := BatchWrite (form_value (projectId (store busy_world)))
                                (filesToSync (files (store busy_world)));
          cont := SyncK (List.length (filesToSync (files (store busy_world))))
       |} :: inflight busy_world
  /\ syncQueue (store (syncToProject busy_world))
     = syncQueue (store busy_world).
Proof.
  assert (H1 : bound busy_world = true) by (vm_compute; reflexivity).
  assert (H2 : filesToSync (files (store busy_world)) <> [])
    by (vm_compute; discriminate).
  pose proof (@flush_sends_the_files busy_world H1) as T. cbv zeta in T.
  destruct T as (_ & T2 & _ & _ & _ & T6 & _).
  split; [exact H1|]. split; [exact H2|].
  split; [exact (proj1 (T6 H2))|exact T2].
Defined.

Lemma unusable_listing_rejects_load_witness :
  usable_listing error_listing = None
  /\ exists w' reason,
      run vfs_write vfs_remove
          [CallLoadProjectFiles "A"; Respond 0 error_listing] (init [])
      = Some w'
      /\ settled w' = (CLoadProjectFiles "A", Thrown reason) :: settled (init [])
      /\ log w' = ErrLoad :: log (init [])
      /\ reason = "Project not found".
Proof.
  split; [reflexivity|].
  destruct (@unusable_listing_rejects_load vfs_write vfs_remove (init []) "A"
                                           error_listing eq_refl)
    as (w' & reason & L1 & L2 & L3 & _ & _ & _ & L7).
  exists w', reason. split; [exact L1|]. split; [exact L2|].
  split; [exact L3|].
  apply (L7 _ _ "Project not found" eq_refl eq_refl eq_refl). discriminate.
Defined.


Lemma batch_write_is_not_atomic_witness :
  JsString.truthy (FilesRoute.form_projectId locked_form) = true
  /\ FilesRoute.write_all
       sample_utf8 sample_base64 sample_writeFile
       (form_value (FilesRoute.form_projectId locked_form))
       [FilesRoute.entry_of
          {| path := "/a.txt"; content := "1"; isBinary := false |}] []
     = ([("A", "/a.txt", "1")], None)
  /\ FilesRoute.write_entry
       sample_utf8 sample_base64 sample_writeFile
       (form_value (FilesRoute.form_projectId locked_form))
       locked_entry [("A", "/a.txt", "1")]
     = ([("A", "/a.txt", "1")], Some "EACCES: permission denied")
  /\ sample_action true locked_form []
     = ({| FilesRoute.status := 500;
           FilesRoute.payload :=
             FilesRoute.ErrorJson "EACCES: permission denied" |},
        [("A", "/a.txt", "1")]).
Proof.
  assert (H1 : JsString.truthy (FilesRoute.form_projectId locked_form) = true)
    by reflexivity.
  assert (H2 : FilesRoute.write_all
                 sample_utf8 sample_base64 sample_writeFile
                 (form_value (FilesRoute.form_projectId locked_form))
                 [FilesRoute.entry_of
                    {| path := "/a.txt"; content := "1"; isBinary := false |}]
                 []
               = ([("A", "/a.txt", "1")], None))
    by reflexivity.
  assert (H3 : FilesRoute.write_entry
                 sample_utf8 sample_base64 sample_writeFile
                 (form_value (FilesRoute.form_projectId locked_form))
                 locked_entry [("A", "/a.txt", "1")]
               = ([("A", "/a.txt", "1")], Some "EACCES: permission denied"))
    by reflexivity.
  split; [exact H1|]. split; [exact H2|]. split; [exact H3|].
  exact (@FilesRouteFacts.batch_write_is_not_atomic
           string sample_disk sample_utf8 sample_base64 sample_writeFile
           sample_deleteFile locked_form _ _ locked_entry [] _ _ _
           H1 eq_refl eq_refl H2 H3).
Defined.

Lemma refused_request_leaves_storage_witness :
  FilesRoute.status
    (fst (sample_action true (FilesRoute.batch_form "" []) readme_disk))
  <> 200
  /\ FilesRoute.status
       (fst (sample_action true (FilesRoute.batch_form "" []) readme_disk))
     <> 500
  /\ snd (sample_action true (FilesRoute.batch_form "" []) readme_disk)
     = readme_disk.
Proof.
  assert (H1 : FilesRoute.status
                 (fst (sample_action true (FilesRoute.batch_form "" [])
                                     readme_disk)) <> 200)
    by (vm_compute; discriminate).
  assert (H2 : FilesRoute.status
                 (fst (sample_action true (FilesRoute.batch_form "" [])
                                     readme_disk)) <> 500)
    by (vm_compute; discriminate).
  split; [exact H1|]. split; [exact H2|].
  exact (proj2 (@FilesRouteFacts.refused_request_leaves_storage
                  string sample_disk sample_utf8 sample_base64
                  sample_writeFile sample_deleteFile true
                  (FilesRoute.batch_form "" []) readme_disk) H1 H2).
Defined.

Lemma engine_batch_is_accepted_witness :
  reachable vfs_write vfs_remove (world_after overlap_trace)
  /\ In {| request := BatchWrite "A" [{| path := "/a.txt"; content := "1";
                                         isBinary := false |}];
           cont := SyncK 1 |}
        (inflight (world_after overlap_trace))
  /\ FilesRoute.no_line_break "A" = true
  /\ FilesRoute.status
       (fst (sample_action
               true
               (FilesRoute.batch_form
                  "A" [{| path := "/a.txt"; content := "1";
                          isBinary := false |}])
               readme_disk))
     <> 400.
Proof.
  assert (H3 : FilesRoute.no_line_break "A" = true) by reflexivity.
  split; [exact overlap_world_reachable|].
  split; [exact overlap_world_newest|]. split; [exact H3|].
  pose proof (@FilesRouteFacts.engine_batch_is_accepted
                string sample_disk sample_utf8 sample_base64 sample_writeFile
                sample_deleteFile vfs_write vfs_remove
                (world_after overlap_trace) _ "A" _ readme_disk
                overlap_world_reachable overlap_world_newest eq_refl H3) as T.
  cbv zeta in T. destruct T as (_ & _ & T3 & _). exact T3.
Defined.

Lemma text_files_are_not_binary_by_name_witness :
  FilesRoute.payload (sample_loader true (Some "A") (Some "/readme.md")
                                    readme_disk)
  = FilesRoute.Content "hello" "text/plain; charset=utf-8"
  /\ array_includes binaryExtensions (extension_of "/readme.md") = false.
Proof.
  assert (H : FilesRoute.payload
                (sample_loader true (Some "A") (Some "/readme.md") readme_disk)
              = FilesRoute.Content "hello" "text/plain; charset=utf-8")
    by reflexivity.
  split; [exact H|].
  exact (proj1 (@FilesRouteFacts.text_files_are_not_binary_by_name
                  string sample_disk sample_readFile sample_listFiles
                  (Some "A") "/readme.md" readme_disk "hello" H)).
Defined.

(** * Further properties of the classification *)

Module ClassificationFacts.
Import JsString.

Lemma lastIndexOf_absent (c : ascii) (s : string) :
  includes c s = false -> lastIndexOf c s = (-1)%Z.
Proof.
  induction s as [|a r IH]; cbn [includes lastIndexOf]; cbv zeta;
    [reflexivity|].
  intros H. apply orb_false_elim in H. destruct H as [Ha Hr].
  rewrite (IH Hr), Ha. reflexivity.
Qed.

Lemma binary_extension_has_dot (e : string) :
  array_includes binaryExtensions e = true -> includes "."%char e = true.
Proof.
  rewrite array_includes_In. unfold binaryExtensions. simpl.
  intros H; repeat (destruct H as [<-|H]; [reflexivity|]); contradiction.
Qed.

(** X20. For a path in which U+0130 does not occur, the flag is true
    exactly when the lower-cased path ends in an extension of the list or
    the content holds a null byte. *)
Theorem isFileBinary_spec (filePath content : string) :
  has_dotted_I filePath = false ->
  isFileBinary filePath content = true <-> spec_binary filePath content.
Proof.
  intros Hi. unfold isFileBinary, spec_binary, spec_has_null_byte.
  rewrite <- (extension_matches_iff _ Hi), <- JsStringFacts.includes_split.
  destruct (array_includes binaryExtensions (extension_of filePath)); simpl.
  - split; [now left|reflexivity].
  - split; [now right|]. intros [H|H]; [discriminate|exact H].
Qed.

(** X18. A path without a dot is never binary by its name: [lastIndexOf]
    gives -1, [substring] then keeps the whole path, which is no listed
    extension, and the flag is decided by the null bytes of the content
    alone. *)
Theorem isFileBinary_without_dot (filePath content : string) :
  includes "."%char filePath = false ->
  extension_of filePath = toLowerCase filePath
  /\ isFileBinary filePath content = includes zero content.
Proof.
  intros H.
  assert (He : extension_of filePath = toLowerCase filePath).
  { unfold extension_of. now rewrite (lastIndexOf_absent _ _ H). }
  split; [exact He|].
  unfold isFileBinary. rewrite He.
  destruct (array_includes binaryExtensions (toLowerCase filePath)) eqn:E;
    [|reflexivity].
  apply binary_extension_has_dot in E.
  rewrite JsStringFacts.includes_lower_dot in E. congruence.
Qed.

End ClassificationFacts.

Lemma isFileBinary_without_dot_witness :
  JsString.includes "."%char "/src/Makefile" = false
  /\ isFileBinary "/src/Makefile" "all: build" = JsString.includes zero "all: build".
Proof.
  split; [reflexivity|].
  exact (proj2 (@ClassificationFacts.isFileBinary_without_dot
                  "/src/Makefile" "all: build" eq_refl)).
Defined.

Lemma isFileBinary_spec_witness :
  JsString.has_dotted_I "/logo.PNG" = false
  /\ isFileBinary "/logo.PNG" "x" = true
  /\ spec_binary "/logo.PNG" "x".
Proof.
  split; [reflexivity|]. split; [reflexivity|].
  exact (proj1 (@ClassificationFacts.isFileBinary_spec
                  "/logo.PNG" "x" eq_refl) eq_refl).
Defined.
